(** * SQLiteDB: a shallow embedding of [src/sql.py]

    The class [SQLiteDB] wraps one [sqlite3] connection.  Every method is a
    short piece of control flow (try / except / raise, a context manager)
    around calls into the [sqlite3] driver.  The embedding keeps that shape:

    - the driver is modelled as a small transition system on a [World]
      (connection handles, the database file, pending transactions, and a
      schedule of environmental faults), with the meaning of SQL text left
      as a parameter [engine] of the development;
    - a method of the class is a computation in the monad [M], which threads
      the object's fields, the world and the log, and which either returns
      or raises a Python exception.

    Modelling assumptions: one thread; SQL text and text values are
    well-formed strings; a driver call fails by raising [sqlite3.Error] (or
    a subclass) or, when a Python int that does not fit in a signed 64-bit
    integer is bound to a statement, [OverflowError], which is not a
    [sqlite3.Error]; every record passed to the logger is kept, whatever
    its level. *)

From stdpp Require Import base option list gmap strings pretty.
From Stdlib Require Import ZArith Ascii.
From Stdlib Require QArith.

Local Open Scope string_scope.

(** ** Python values, exceptions and logging *)

(** Values that cross the driver boundary.  A Python [int] is unbounded. *)
Inductive value : Type :=
| VNull
| VInt (z : Z)
| VText (s : string).

#[global] Instance value_eq_dec : EqDecision value.
Proof. solve_decision. Defined.

(** A Python [dict] used as a record: insertion order is observable through
    [keys()] and [values()], so it is kept as an association list. *)
Definition Dict : Type := list (string * value).

Definition keys (d : Dict) : list string := d.*1.
Definition values (d : Dict) : list value := d.*2.

(** The second argument of [Connection.execute]: a tuple of positional
    values or a mapping of named ones. *)
Inductive Params : Type :=
| PTuple (vs : list value)
| PDict (d : Dict).

(** What the [sqlite3] module can bind to a placeholder: an SQLite INTEGER
    is a signed 64-bit integer, and a Python int outside that range is
    refused with [OverflowError]. *)
Definition bindable_value (v : value) : bool :=
  match v with
  | VInt z => (- 2 ^ 63 <=? z)%Z && (z <? 2 ^ 63)%Z
  | _ => true
  end.

Definition bindable (p : Params) : bool :=
  match p with
  | PTuple vs => forallb bindable_value vs
  | PDict d => forallb bindable_value (values d)
  end.

(** Python truthiness of an [Optional[Union[Tuple, Dict]]]. *)
Definition params_truthy (p : option Params) : bool :=
  match p with
  | None => false
  | Some (PTuple []) => false
  | Some (PDict []) => false
  | Some _ => true
  end.

(** The parameters [execute] hands to the driver. *)
Definition bound_params (params : option Params) : Params :=
  if params_truthy params then default (PTuple []) params else PTuple [].

(** The exceptions that matter to the control flow of the class:
    [sqlite3.Error] (with all its subclasses), any other subclass of
    [Exception], and the exceptions that derive from [BaseException] only
    ([KeyboardInterrupt], [SystemExit], [GeneratorExit]). *)
Inductive exn : Type :=
| SqliteError (msg : string)
| OtherException (cls msg : string)
| BaseOnly (cls : string).

#[global] Instance exn_eq_dec : EqDecision exn.
Proof. solve_decision. Defined.

(** [isinstance(e, sqlite3.Error)] and [isinstance(e, Exception)]. *)
Definition is_sqlite_Error (e : exn) : bool :=
  match e with SqliteError _ => true | _ => false end.

Definition is_Exception (e : exn) : bool :=
  match e with BaseOnly _ => false | _ => true end.

(** The [OverflowError] of the [sqlite3] module: a subclass of
    [Exception] (through [ArithmeticError]), not of [sqlite3.Error]. *)
Definition overflow_error : exn :=
  OtherException "OverflowError"
    "Python int too large to convert to SQLite INTEGER".

(** [str(e)], as interpolated by the f-strings of the log messages. *)
Definition str_exn (e : exn) : string :=
  match e with
  | SqliteError m => m
  | OtherException _ m => m
  | BaseOnly _ => ""
  end.

Inductive level : Type := DEBUG | INFO | ERROR.

#[global] Instance level_eq_dec : EqDecision level.
Proof. solve_decision. Defined.

(** [", ".join(xs)] *)
Fixpoint join (sep : string) (xs : list string) : string :=
  match xs with
  | [] => ""
  | [x] => x
  | x :: rest => x ++ sep ++ join sep rest
  end.

(** ** The database engine *)

(** A row as [sqlite3.Row] presents it: columns in order, readable by name. *)
Definition Row : Type := list (string * value).

Record Cursor : Type := mkCursor {
  cur_rows : list Row;
  lastrowid : option Z;
  rowcount : Z
}.

Definition fetchall (c : Cursor) : list Row := cur_rows c.
Definition fetchone (c : Cursor) : option Row := head (cur_rows c).

(** A table: its columns, an optional UNIQUE / PRIMARY KEY column, and its
    rows, each row giving a value to every column. *)
Record Table : Type := mkTable {
  t_columns : list string;
  t_key : option string;
  t_rows : list Row
}.

Definition DB : Type := gmap string Table.

(** The meaning of one SQL statement on a database: an error message (the
    driver raises [sqlite3.Error]) or the new database and a cursor.  The
    driver compiles a statement and checks the number of its parameters
    before it binds their values, and runs it only once they are bound: for
    parameters that are not [bindable] the engine is only asked whether the
    statement is accepted that far. *)
Definition Engine : Type := string -> Params -> DB -> string + (DB * Cursor).

(** *** Reference semantics of the two statements [insert_many] and [count]
    rely on.  They say what SQLite does with
    [INSERT [OR REPLACE] INTO t (cols) VALUES (?, ..., ?)], run with values
    that can be bound, and with [SELECT COUNT( * ) as count FROM t]. *)

Fixpoint row_lookup (c : string) (r : Row) : option value :=
  match r with
  | [] => None
  | (k, v) :: r' => if bool_decide (k = c) then Some v else row_lookup c r'
  end.

Definition row_get (c : string) (r : Row) : value :=
  default VNull (row_lookup c r).

(** The row stored for the named columns [cols] bound to [vs]: every column
    of the table gets its bound value, or NULL. *)
Definition make_row (tcols cols : list string) (vs : list value) : Row :=
  (fun c => (c, row_get c (zip cols vs))) <$> tcols.

Definition conflicts (k : string) (v : value) (r : Row) : bool :=
  bool_decide (v <> VNull) && bool_decide (row_get k r = v).

(** [rowid] is the rowid SQLite gives the new row, which the cursor reports
    as [lastrowid]; how SQLite chooses it is not modelled. *)
Definition insert_row (or_replace : bool) (t : string) (cols : list string)
    (vs : list value) (rowid : Z) (db : DB) : string + (DB * Cursor) :=
  match db !! t with
  | None => inl ("no such table: " ++ t)
  | Some tb =>
      if negb (forallb (fun c => bool_decide (c ∈ t_columns tb)) cols)
      then inl ("table " ++ t ++ " has no such column")
      else if negb (bool_decide (length vs = length cols))
      then inl "Incorrect number of bindings supplied."
      else
        let r := make_row (t_columns tb) cols vs in
        let clash :=
          match t_key tb with
          | None => fun _ => false
          | Some k => conflicts k (row_get k r)
          end in
        if existsb clash (t_rows tb) then
          if or_replace then
            let rows' := (filter (fun x => clash x = false) (t_rows tb) ++ [r])%list in
            inr (<[t := mkTable (t_columns tb) (t_key tb) rows']> db,
                 mkCursor [] (Some rowid) 1)
          else inl ("UNIQUE constraint failed: " ++ t)
        else
          let rows' := (t_rows tb ++ [r])%list in
          inr (<[t := mkTable (t_columns tb) (t_key tb) rows']> db,
               mkCursor [] (Some rowid) 1)
  end.

(** The engine's answer [a] agrees with the reference answer [b]: both are
    errors (the message is the engine's own), or both are the same database
    and cursor. *)
Definition agrees (a b : string + (DB * Cursor)) : Prop :=
  match a, b with
  | inl _, inl _ => True
  | inr x, inr y => x = y
  | _, _ => False
  end.

Definition table_size (t : string) (db : DB) : Z :=
  match db !! t with
  | None => 0
  | Some tb => Z.of_nat (length (t_rows tb))
  end.

Definition count_rows (t : string) (db : DB) : string + (DB * Cursor) :=
  match db !! t with
  | None => inl ("no such table: " ++ t)
  | Some tb =>
      inr (db, mkCursor [[("count", VInt (Z.of_nat (length (t_rows tb))))]] None (-1))
  end.

(** ** The driver: connection handles over one database file *)

Record Handle : Type := mkHandle {
  h_path : string;
  h_timeout : QArith_base.Q;
  h_check_same_thread : bool;
  h_row_factory : bool;          (* [row_factory = sqlite3.Row] has been set *)
  h_closed : bool;
  h_tx : option DB               (* working copy of an open transaction *)
}.

(** The world outside the object.  A handle is its index in [handles].
    [faults] is the schedule of environmental failures (disk I/O, locking,
    a file that cannot be opened): each driver call that touches the
    database consumes one entry, and [Some msg] makes that call raise
    [sqlite3.Error(msg)].  [history] lists the statements handed to
    [Connection.execute] so far (handle, SQL text, bound parameters),
    oldest first. *)
Record World : Type := mkWorld {
  handles : list Handle;
  disk : DB;
  faults : list (option string);
  history : list (nat * string * Params)
}.

(** What a driver call does: it returns, it raises [sqlite3.Error], or
    (when it binds parameters) it raises [OverflowError]. *)
Inductive dres (A : Type) : Type :=
| DOk (a : A)
| DErr (msg : string)
| DOverflow.
Arguments DOk {A} a.
Arguments DErr {A} msg.
Arguments DOverflow {A}.

Definition pop_fault (w : World) : option string * World :=
  match faults w with
  | [] => (None, w)
  | f :: fs => (f, mkWorld (handles w) (disk w) fs (history w))
  end.

Definition set_handle (h : nat) (hd : Handle) (w : World) : World :=
  mkWorld (<[h := hd]> (handles w)) (disk w) (faults w) (history w).

(** What a handle reads: its own transaction if one is open, else the file. *)
Definition view (hd : Handle) (w : World) : DB :=
  default (disk w) (h_tx hd).

Definition closed_msg : string := "Cannot operate on a closed database.".

(** An operation on a handle: refused on a closed (or unknown) handle,
    otherwise exposed to the next environmental fault. *)
Definition on_open_handle {A} (h : nat) (w : World)
    (k : Handle -> World -> dres A * World) : dres A * World :=
  match handles w !! h with
  | None => (DErr closed_msg, w)
  | Some hd =>
      if h_closed hd then (DErr closed_msg, w)
      else match pop_fault w with
           | (Some m, w') => (DErr m, w')
           | (None, w') => k hd w'
           end
  end.

(** [sqlite3.connect(path, timeout=..., check_same_thread=...)] *)
Definition sqlite3_connect (path : string) (tmo : QArith_base.Q) (cst : bool)
    (w : World) : dres nat * World :=
  match pop_fault w with
  | (Some m, w') => (DErr m, w')
  | (None, w') =>
      (DOk (length (handles w')),
       mkWorld (handles w' ++ [mkHandle path tmo cst false false None])%list
               (disk w') (faults w') (history w'))
  end.

(** [conn.row_factory = sqlite3.Row] *)
Definition set_row_factory (h : nat) (w : World) : World :=
  match handles w !! h with
  | None => w
  | Some hd =>
      set_handle h (mkHandle (h_path hd) (h_timeout hd) (h_check_same_thread hd)
                             true (h_closed hd) (h_tx hd)) w
  end.

Definition with_tx (hd : Handle) (tx : option DB) : Handle :=
  mkHandle (h_path hd) (h_timeout hd) (h_check_same_thread hd)
           (h_row_factory hd) (h_closed hd) tx.

(** The [sqlite3] module opens a transaction implicitly before a statement
    whose first keyword is INSERT, UPDATE, DELETE or REPLACE. *)
Definition upper (a : ascii) : ascii :=
  let n := Ascii.nat_of_ascii a in
  if (97 <=? n)%nat && (n <=? 122)%nat then Ascii.ascii_of_nat (n - 32) else a.

Fixpoint starts_with_ci (kw s : string) : bool :=
  match kw, s with
  | EmptyString, _ => true
  | String a kw', String b s' =>
      bool_decide (upper a = upper b) && starts_with_ci kw' s'
  | String _ _, EmptyString => false
  end.

(** The keyword is looked for after leading white space (space, tab, line
    feed, form feed, carriage return) and leading SQL comments ([-- ...] to
    the end of the line, [/* ... */]), as the module's [lstrip_sql] does
    since CPython 3.11; text that is nothing else has no keyword. *)
Definition is_blank (a : ascii) : bool :=
  let n := Ascii.nat_of_ascii a in
  (n =? 32)%nat || (n =? 9)%nat || (n =? 10)%nat || (n =? 12)%nat || (n =? 13)%nat.

Inductive lex_mode : Type := InCode | InLineComment | InBlockComment.

Fixpoint lstrip_sql (m : lex_mode) (s : string) : option string :=
  match s with
  | EmptyString => None
  | String a s' =>
      match m with
      | InCode =>
          if is_blank a then lstrip_sql InCode s'
          else match s' with
               | String b s'' =>
                   if bool_decide (a = "-"%char) && bool_decide (b = "-"%char)
                   then lstrip_sql InLineComment s''
                   else if bool_decide (a = "/"%char) && bool_decide (b = "*"%char)
                   then lstrip_sql InBlockComment s''
                   else Some s
               | EmptyString => Some s
               end
      | InLineComment =>
          if (Ascii.nat_of_ascii a =? 10)%nat then lstrip_sql InCode s'
          else lstrip_sql InLineComment s'
      | InBlockComment =>
          match s' with
          | String b s'' =>
              if bool_decide (a = "*"%char) && bool_decide (b = "/"%char)
              then lstrip_sql InCode s''
              else lstrip_sql InBlockComment s'
          | EmptyString => None
          end
      end
  end.

Definition is_dml (sql : string) : bool :=
  match lstrip_sql InCode sql with
  | Some s =>
      starts_with_ci "INSERT" s || starts_with_ci "UPDATE" s
      || starts_with_ci "DELETE" s || starts_with_ci "REPLACE" s
  | None => false
  end.

(** [conn.commit()], [conn.rollback()], [conn.close()] *)
Definition conn_commit (h : nat) (w : World) : dres unit * World :=
  on_open_handle h w (fun hd w' =>
    match h_tx hd with
    | None => (DOk (), w')
    | Some db' =>
        (DOk (), mkWorld (<[h := with_tx hd None]> (handles w')) db' (faults w')
                         (history w'))
    end).

Definition conn_rollback (h : nat) (w : World) : dres unit * World :=
  on_open_handle h w (fun hd w' => (DOk (), set_handle h (with_tx hd None) w')).

Definition conn_close (h : nat) (w : World) : dres unit * World :=
  match handles w !! h with
  | None => (DOk (), w)
  | Some hd =>
      match pop_fault w with
      | (Some m, w') => (DErr m, w')
      | (None, w') =>
          (DOk (),
           set_handle h (mkHandle (h_path hd) (h_timeout hd) (h_check_same_thread hd)
                                  (h_row_factory hd) true None) w')
      end
  end.

(** ** The object and its monad *)

(** The fields of a [SQLiteDB] object, the world it runs in, and the records
    it has passed to its logger, oldest first.  [timeout] is a Python float
    that the class only hands on to [sqlite3.connect]; it is kept as a
    rational. *)
Record State : Type := mkState {
  db_path : string;
  timeout : QArith_base.Q;
  check_same_thread : bool;
  connection : option nat;
  world : World;
  log : list (level * string)
}.

Definition set_connection_of (c : option nat) (s : State) : State :=
  mkState (db_path s) (timeout s) (check_same_thread s) c (world s) (log s).

Definition set_world_of (w : World) (s : State) : State :=
  mkState (db_path s) (timeout s) (check_same_thread s) (connection s) w (log s).

Definition add_log (l : level) (msg : string) (s : State) : State :=
  mkState (db_path s) (timeout s) (check_same_thread s) (connection s) (world s)
          (log s ++ [(l, msg)])%list.

Inductive outcome (A : Type) : Type :=
| Return (a : A)
| Raise (e : exn).
Arguments Return {A} a.
Arguments Raise {A} e.

Definition M (A : Type) : Type := State -> outcome A * State.

Definition ret {A} (a : A) : M A := fun s => (Return a, s).

Definition raise {A} (e : exn) : M A := fun s => (Raise e, s).

Definition bind {A B} (m : M A) (k : A -> M B) : M B := fun s =>
  match m s with
  | (Return a, s') => k a s'
  | (Raise e, s') => (Raise e, s')
  end.

(** [try: m  except C as e: handler e], where [catches e] is
    [isinstance(e, C)]. *)
Definition try_except {A} (m : M A) (catches : exn -> bool)
    (handler : exn -> M A) : M A := fun s =>
  match m s with
  | (Return a, s') => (Return a, s')
  | (Raise e, s') => if catches e then handler e s' else (Raise e, s')
  end.

Declare Scope py_scope.
Delimit Scope py_scope with py.
Notation "x <- m ;; k" := (bind m (fun x => k))
  (at level 100, m at next level, right associativity) : py_scope.
Notation "m ;; k" := (bind m (fun _ => k))
  (at level 100, right associativity) : py_scope.
Local Open Scope py_scope.

Definition get_connection : M (option nat) := fun s => (Return (connection s), s).

Definition set_connection (c : option nat) : M unit := fun s =>
  (Return (), set_connection_of c s).

Definition logger (l : level) (msg : string) : M unit := fun s =>
  (Return (), add_log l msg s).

(** A driver call made from a method: the driver's failure surfaces as a
    raised [sqlite3.Error] or as a raised [OverflowError]. *)
Definition driver {A} (d : World -> dres A * World) : M A := fun s =>
  match d (world s) with
  | (DOk a, w) => (Return a, set_world_of w s)
  | (DErr m, w) => (Raise (SqliteError m), set_world_of w s)
  | (DOverflow, w) => (Raise overflow_error, set_world_of w s)
  end.

Section Layer.

(** The meaning of SQL text is a parameter: the class never inspects it. *)
Variable engine : Engine.

(** One statement run on an open handle: the engine's error leaves the
    database as it was; a parameter that cannot be bound raises
    [OverflowError] before the statement runs, but after the transaction of
    a DML statement has been opened; a DML statement opens (or continues)
    the handle's transaction; any other statement writes through when no
    transaction is open. *)
Definition run_statement (h : nat) (sql : string) (p : Params)
    (hd : Handle) (w : World) : dres Cursor * World :=
  match engine sql p (view hd w) with
  | inl m => (DErr m, w)
  | inr (db', cur) =>
      if negb (bindable p)
      then (DOverflow,
            if is_dml sql then set_handle h (with_tx hd (Some (view hd w))) w
            else w)
      else if is_dml sql || bool_decide (is_Some (h_tx hd))
      then (DOk cur, set_handle h (with_tx hd (Some db')) w)
      else (DOk cur, mkWorld (handles w) db' (faults w) (history w))
  end.

(** [conn.execute(sql, params)] *)
Definition record_statement (h : nat) (sql : string) (p : Params) (w : World)
    : World :=
  mkWorld (handles w) (disk w) (faults w) (history w ++ [(h, sql, p)])%list.

Definition conn_execute (h : nat) (sql : string) (p : Params) (w : World)
    : dres Cursor * World :=
  on_open_handle h (record_statement h sql p w) (run_statement h sql p).

(** [conn.executemany(sql, params_list)]: the statement is run once per
    parameter set, in order, and the first failure stops the loop; what the
    earlier sets wrote stays in the open transaction. *)
Fixpoint run_many (h : nat) (sql : string) (ps : list Params) (n : Z)
    (w : World) : dres Cursor * World :=
  match ps with
  | [] => (DOk (mkCursor [] None n), w)
  | p :: rest =>
      match conn_execute h sql p w with
      | (DErr m, w') => (DErr m, w')
      | (DOverflow, w') => (DOverflow, w')
      | (DOk cur, w') => run_many h sql rest (n + rowcount cur) w'
      end
  end.

Definition conn_executemany (h : nat) (sql : string) (ps : list Params)
    (w : World) : dres Cursor * World :=
  if negb (is_dml sql)
  then (DErr "executemany() can only execute DML statements.", w)
  else run_many h sql ps 0 w.

Definition is_AttributeError (e : exn) : bool :=
  match e with
  | OtherException cls _ => bool_decide (cls = "AttributeError")
  | _ => false
  end.

(** ** Connection lifecycle ([sql.py], lines 37-85) *)

Definition _is_connection_closed : M bool :=
  try_except
    (c <- get_connection ;;
     match c with
     | None =>
         raise (OtherException "AttributeError"
                  "'NoneType' object has no attribute 'execute'")
     | Some h =>
         driver (conn_execute h "SELECT 1" (PTuple [])) ;;
         ret false
     end)
    (fun e => is_sqlite_Error e || is_AttributeError e)
    (fun _ => ret true).

(** The body of the [if] in [connect]: open, remember, configure, log. *)
Definition open_connection : M nat := fun s =>
  (h <- driver (sqlite3_connect (db_path s) (timeout s) (check_same_thread s)) ;;
   set_connection (Some h) ;;
   driver (fun w => (DOk (), set_row_factory h w)) ;;
   logger INFO ("成功连接到数据库: " ++ db_path s) ;;
   ret h) s.

(** [self.connection is None or self._is_connection_closed()]: the probe
    runs only when a handle is cached. *)
Definition connect : M nat :=
  try_except
    (c <- get_connection ;;
     match c with
     | None => open_connection
     | Some h =>
         dead <- _is_connection_closed ;;
         if dead then open_connection else ret h
     end)
    is_sqlite_Error
    (fun e => logger ERROR ("连接数据库失败: " ++ str_exn e) ;; raise e).

Definition close : M unit :=
  c <- get_connection ;;
  match c with
  | None => ret ()
  | Some h =>
      try_except
        (driver (conn_close h) ;;
         set_connection None ;;
         logger INFO "数据库连接已关闭")
        is_sqlite_Error
        (fun e => logger ERROR ("关闭数据库连接失败: " ++ str_exn e))
  end.

Definition commit : M unit :=
  c <- get_connection ;;
  match c with
  | None => ret ()
  | Some h =>
      try_except
        (driver (conn_commit h) ;;
         logger DEBUG "事务已提交")
        is_sqlite_Error
        (fun e => logger ERROR ("提交事务失败: " ++ str_exn e) ;; raise e)
  end.

Definition rollback : M unit :=
  c <- get_connection ;;
  match c with
  | None => ret ()
  | Some h =>
      try_except
        (driver (conn_rollback h) ;;
         logger DEBUG "事务已回滚")
        is_sqlite_Error
        (fun e => logger ERROR ("回滚事务失败: " ++ str_exn e) ;; raise e)
  end.

Definition __enter__ : M unit := connect ;; ret ().

(** [exc] is the exception that left the [with] block, if any
    ([exc_type] is truthy exactly then). *)
Definition __exit__ (exc : option exn) : M unit :=
  (if bool_decide (is_Some exc) then rollback else ret ()) ;;
  close.

(** The statement [with db: body].  [__exit__] returns [None], so an
    exception of the body propagates once [__exit__] has returned, and an
    exception of [__exit__] replaces it. *)
Definition with_db {A} (body : M A) : M A :=
  __enter__ ;;
  fun s =>
    match body s with
    | (Return a, s') => (__exit__ None ;; ret a) s'
    | (Raise e, s') => (__exit__ (Some e) ;; raise e) s'
    end.

(** ** Transaction scope and statement execution ([sql.py], lines 87-168) *)

(** [with self.transaction() as conn: body conn].  The generator runs up to
    its [yield] before the block; the block's exception is thrown into the
    generator at the [yield], inside its [try]; after a normal block the
    generator resumes and commits, still inside the [try]. *)
Definition transaction {A} (body : nat -> M A) : M A :=
  conn <- connect ;;
  try_except
    (a <- body conn ;;
     driver (conn_commit conn) ;;
     logger INFO "事务提交成功" ;;
     ret a)
    is_Exception
    (fun e =>
       driver (conn_rollback conn) ;;
       logger ERROR ("事务回滚: " ++ str_exn e) ;;
       raise e).

(** [conn.execute(sql)] is [conn.execute(sql, ())]: a falsy [params] binds
    nothing. *)
Definition execute (sql : string) (params : option Params) : M Cursor :=
  conn <- connect ;;
  try_except
    (cursor <- (if params_truthy params
                then driver (conn_execute conn sql (default (PTuple []) params))
                else driver (conn_execute conn sql (PTuple []))) ;;
     logger DEBUG ("执行SQL: " ++ sql) ;;
     ret cursor)
    is_sqlite_Error
    (fun e =>
       logger ERROR ("执行SQL失败: " ++ sql ++ ", 错误: " ++ str_exn e) ;;
       raise e).

Definition executemany (sql : string) (params_list : list Params) : M Cursor :=
  conn <- connect ;;
  try_except
    (cursor <- driver (conn_executemany conn sql params_list) ;;
     logger DEBUG ("批量执行SQL: " ++ sql ++ ", 记录数: "
                   ++ pretty (length params_list)) ;;
     ret cursor)
    is_sqlite_Error
    (fun e =>
       logger ERROR ("批量执行SQL失败: " ++ sql ++ ", 错误: " ++ str_exn e) ;;
       raise e).

(** ** Table operations ([sql.py], lines 247-417) *)

(** Python truthiness of an optional string, integer and tuple. *)
Definition truthy_str (o : option string) : bool :=
  match o with Some (String _ _) => true | _ => false end.

Definition truthy_int (o : option Z) : bool :=
  match o with Some z => negb (z =? 0)%Z | None => false end.

Definition truthy_tuple (o : option (list value)) : bool :=
  match o with Some (_ :: _) => true | _ => false end.

(** The INSERT text built from the first record. *)
Definition insert_sql (or_replace : bool) (table_name : string) (first : Dict)
    : string :=
  let columns := join ", " (keys first) in
  let placeholders := join ", " ((fun _ => "?") <$> first) in
  let replace_clause := if or_replace then "OR REPLACE " else "" in
  "INSERT " ++ replace_clause ++ "INTO " ++ table_name
  ++ " (" ++ columns ++ ") VALUES (" ++ placeholders ++ ")".

Definition insert_many (table_name : string) (data_list : list Dict)
    (or_replace : bool) : M bool :=
  match data_list with
  | [] => ret true
  | first :: _ =>
      try_except
        (let sql := insert_sql or_replace table_name first in
         let params_list := (fun data => PTuple (values data)) <$> data_list in
         transaction (fun _ => executemany sql params_list) ;;
         logger INFO ("批量插入 " ++ pretty (length data_list) ++ " 条记录成功") ;;
         ret true)
        is_sqlite_Error
        (fun e => logger ERROR ("批量插入记录失败: " ++ str_exn e) ;; ret false)
  end.

(** The SELECT text with its optional tail. *)
Definition select_sql (table_name columns : string) (where_ order_by : option string)
    (limit offset : option Z) : string :=
  let sql := "SELECT " ++ columns ++ " FROM " ++ table_name in
  let sql := if truthy_str where_ then sql ++ " WHERE " ++ default "" where_ else sql in
  let sql := if truthy_str order_by then sql ++ " ORDER BY " ++ default "" order_by else sql in
  let sql := if truthy_int limit then sql ++ " LIMIT " ++ pretty (default 0%Z limit) else sql in
  let sql := if truthy_int offset then sql ++ " OFFSET " ++ pretty (default 0%Z offset) else sql in
  sql.

Definition select (table_name columns : string) (where_ : option string)
    (params : option Params) (order_by : option string)
    (limit offset : option Z) : M (list Row) :=
  try_except
    (let sql := select_sql table_name columns where_ order_by limit offset in
     cursor <- execute sql params ;;
     let results := fetchall cursor in
     logger DEBUG ("查询到 " ++ pretty (length results) ++ " 条记录") ;;
     ret results)
    is_sqlite_Error
    (fun e => logger ERROR ("查询记录失败: " ++ str_exn e) ;; ret []).

(** [results[0] if results else None] *)
Definition select_one (table_name columns : string) (where_ : option string)
    (params : option Params) : M (option Row) :=
  results <- select table_name columns where_ params None (Some 1%Z) None ;;
  ret (match results with
       | [] => None
       | r :: _ => Some r
       end).

Definition update_sql (table_name : string) (data : Dict) (where_ : string)
    : string :=
  let set_clause := join ", " ((fun key => key ++ " = ?") <$> keys data) in
  "UPDATE " ++ table_name ++ " SET " ++ set_clause ++ " WHERE " ++ where_.

(** [params = list(data.values()); if where_params: params.extend(where_params)] *)
Definition update_params (data : Dict) (where_params : option (list value))
    : list value :=
  let params := values data in
  if truthy_tuple where_params
  then (params ++ default [] where_params)%list
  else params.

Definition update (table_name : string) (data : Dict) (where_ : string)
    (where_params : option (list value)) : M Z :=
  try_except
    (let sql := update_sql table_name data where_ in
     let params := update_params data where_params in
     cursor <- execute sql (Some (PTuple params)) ;;
     commit ;;
     let affected_rows := rowcount cursor in
     logger INFO ("更新 " ++ pretty affected_rows ++ " 条记录") ;;
     ret affected_rows)
    is_sqlite_Error
    (fun e => logger ERROR ("更新记录失败: " ++ str_exn e) ;; ret 0%Z).

Definition count_sql (table_name : string) (where_ : option string) : string :=
  let sql := "SELECT COUNT(*) as count FROM " ++ table_name in
  if truthy_str where_ then sql ++ " WHERE " ++ default "" where_ else sql.

(** [result['count'] if result else 0]: a row is truthy when it has a
    column, and indexing by a missing name raises [IndexError]. *)
Definition count (table_name : string) (where_ : option string)
    (params : option Params) : M value :=
  try_except
    (cursor <- execute (count_sql table_name where_) params ;;
     match fetchone cursor with
     | Some ((_ :: _) as result) =>
         match row_lookup "count" result with
         | Some v => ret v
         | None => raise (OtherException "IndexError" "No item with that key")
         end
     | _ => ret (VInt 0)
     end)
    is_sqlite_Error
    (fun e => logger ERROR ("统计记录失败: " ++ str_exn e) ;; ret (VInt 0)).

End Layer.

(** ** A concrete engine and sample worlds, for evaluating the model *)

(** An engine that knows the statements this class generates for a given
    list of table shapes (name, columns of the first record), plus the
    liveness probe; any other text is a syntax error.  It numbers the rows
    of a table as SQLite numbers those of a table that has only grown. *)
Fixpoint sample_engine (shapes : list (string * Dict)) : Engine :=
  fun sql p db =>
    match shapes with
    | [] =>
        if bool_decide (sql = "SELECT 1")
        then inr (db, mkCursor [[("1", VInt 1)]] None (-1))
        else inl ("near " ++ sql ++ ": syntax error")
    | (t, first) :: rest =>
        let vs := match p with PTuple vs => vs | PDict d => values d end in
        let rowid := (table_size t db + 1)%Z in
        if bool_decide (sql = insert_sql false t first)
        then insert_row false t (keys first) vs rowid db
        else if bool_decide (sql = insert_sql true t first)
        then insert_row true t (keys first) vs rowid db
        else if bool_decide (sql = count_sql t None)
        then count_rows t db
        else sample_engine rest sql p db
    end.

(** An engine that answers every statement with the same rows. *)
Definition constant_engine (rows : list Row) : Engine :=
  fun _ _ db => inr (db, mkCursor rows None (-1)).

Definition sample_users : Table :=
  mkTable ["id"; "name"] (Some "id") [[("id", VInt 1); ("name", VText "A")]].

Definition sample_db : DB := {["users" := sample_users]}.

Definition users_engine : Engine :=
  sample_engine [("users", [("id", VNull); ("name", VNull)])].

(** A fresh object on [sample_db], never connected, with a fault schedule. *)
Definition fresh_state (fl : list (option string)) : State :=
  mkState "example.db" (QArith_base.Qmake 30 1) false None
          (mkWorld [] sample_db fl []) [].

(** The same object after a successful [connect()]. *)
Definition connected_state (fl : list (option string)) : State :=
  mkState "example.db" (QArith_base.Qmake 30 1) false (Some 0)
          (mkWorld [mkHandle "example.db" (QArith_base.Qmake 30 1) false true false None]
                   sample_db fl [])
          [(INFO, "成功连接到数据库: example.db")].

(** ** Properties *)

Section Properties.

Variable engine : Engine.

(** *** Which exceptions a method can raise *)

(** [only_sqlite m]: whatever [m] raises is a [sqlite3.Error]. *)
Definition only_sqlite {A} (m : M A) : Prop :=
  forall s e s', m s = (Raise e, s') -> is_sqlite_Error e = true.

(** [never_raises m]: [m] always returns. *)
Definition never_raises {A} (m : M A) : Prop :=
  forall s, exists a s', m s = (Return a, s').

Lemma only_sqlite_ret {A} (a : A) : only_sqlite (ret a).
Proof. intros s e s' H. discriminate H. Qed.

Lemma only_sqlite_raise {A} (e : exn) :
  is_sqlite_Error e = true -> only_sqlite (@raise A e).
Proof. intros He s e' s' H. injection H as <- _. exact He. Qed.

Lemma only_sqlite_logger l msg : only_sqlite (logger l msg).
Proof. intros s e s' H. discriminate H. Qed.

Lemma only_sqlite_get_connection : only_sqlite get_connection.
Proof. intros s e s' H. discriminate H. Qed.

Lemma only_sqlite_set_connection c : only_sqlite (set_connection c).
Proof. intros s e s' H. discriminate H. Qed.

(** [never_overflows d]: the driver call [d] binds nothing that can
    overflow, so it fails only with [sqlite3.Error]. *)
Definition never_overflows {A} (d : World -> dres A * World) : Prop :=
  forall w, (d w).1 <> DOverflow.

Lemma on_open_handle_no_overflow {A} h w (k : Handle -> World -> dres A * World) :
  (forall hd w', (k hd w').1 <> DOverflow) -> (on_open_handle h w k).1 <> DOverflow.
Proof.
  intros Hk. unfold on_open_handle.
  destruct (handles w !! h) as [hd|]; [|discriminate].
  destruct (h_closed hd); [discriminate|].
  destruct (pop_fault w) as [[m|] w1]; [discriminate|apply Hk].
Qed.

Lemma sqlite3_connect_no_overflow path tmo cst :
  never_overflows (sqlite3_connect path tmo cst).
Proof.
  intros w. unfold sqlite3_connect. destruct (pop_fault w) as [[m|] w1]; discriminate.
Qed.

Lemma conn_commit_no_overflow h : never_overflows (conn_commit h).
Proof.
  intros w. apply on_open_handle_no_overflow. intros hd w'.
  destruct (h_tx hd); discriminate.
Qed.

Lemma conn_rollback_no_overflow h : never_overflows (conn_rollback h).
Proof. intros w. apply on_open_handle_no_overflow. discriminate. Qed.

Lemma conn_close_no_overflow h : never_overflows (conn_close h).
Proof.
  intros w. unfold conn_close. destruct (handles w !! h); [|discriminate].
  destruct (pop_fault w) as [[m|] w1]; discriminate.
Qed.

Lemma set_row_factory_no_overflow h :
  never_overflows (fun w => (DOk (), set_row_factory h w)).
Proof. intros w. discriminate. Qed.

(** Parameters that can be bound never overflow. *)
Lemma conn_execute_no_overflow h sql p :
  bindable p = true -> never_overflows (conn_execute engine h sql p).
Proof.
  intros Hp w. apply on_open_handle_no_overflow. intros hd w'.
  unfold run_statement. destruct (engine sql p _) as [m|[db' cur]]; [discriminate|].
  rewrite Hp. cbn. destruct (_ || _); discriminate.
Qed.

Lemma run_many_no_overflow h sql ps :
  Forall (fun p => bindable p = true) ps ->
  forall n, never_overflows (run_many engine h sql ps n).
Proof.
  induction 1 as [|p ps Hp _ IH]; intros n w; cbn; [discriminate|].
  pose proof (conn_execute_no_overflow h sql p Hp w) as Hx.
  destruct (conn_execute engine h sql p w) as [[cur|m|] w1]; cbn in *;
    [apply IH|discriminate|congruence].
Qed.

Lemma conn_executemany_no_overflow h sql ps :
  Forall (fun p => bindable p = true) ps ->
  never_overflows (conn_executemany engine h sql ps).
Proof.
  intros Hps w. unfold conn_executemany.
  destruct (negb (is_dml sql)); [discriminate|by apply run_many_no_overflow].
Qed.

Lemma only_sqlite_driver {A} (d : World -> dres A * World) :
  never_overflows d -> only_sqlite (driver d).
Proof.
  intros Hd s e s' H. unfold driver in H. specialize (Hd (world s)).
  destruct (d (world s)) as [[a|m|] w]; simplify_eq. reflexivity.
Qed.

Lemma only_sqlite_bind {A B} (m : M A) (k : A -> M B) :
  only_sqlite m -> (forall a, only_sqlite (k a)) -> only_sqlite (bind m k).
Proof.
  intros Hm Hk s e s' H. unfold bind in H.
  destruct (m s) as [[a|e0] s0] eqn:E.
  - exact (Hk a _ _ _ H).
  - simplify_eq. exact (Hm _ _ _ E).
Qed.

Lemma only_sqlite_try {A} (m : M A) catches handler :
  only_sqlite m -> (forall e, catches e = true -> only_sqlite (handler e)) ->
  only_sqlite (try_except m catches handler).
Proof.
  intros Hm Hh s e s' H. unfold try_except in H.
  destruct (m s) as [[a|e0] s0] eqn:E; [discriminate H|].
  destruct (catches e0) eqn:C.
  - exact (Hh _ C _ _ _ H).
  - simplify_eq. exact (Hm _ _ _ E).
Qed.

Lemma only_sqlite_if {A} (b : bool) (m1 m2 : M A) :
  only_sqlite m1 -> only_sqlite m2 -> only_sqlite (if b then m1 else m2).
Proof. destruct b; auto. Qed.

Create HintDb raises.
#[local] Hint Resolve only_sqlite_ret only_sqlite_logger only_sqlite_get_connection
  only_sqlite_set_connection only_sqlite_driver only_sqlite_bind only_sqlite_try
  only_sqlite_if only_sqlite_raise sqlite3_connect_no_overflow
  conn_commit_no_overflow conn_rollback_no_overflow conn_close_no_overflow
  set_row_factory_no_overflow conn_execute_no_overflow
  conn_executemany_no_overflow : raises.

(** A handler that logs and returns a fallback turns a method that raises
    only [sqlite3.Error] into one that never raises. *)
Lemma soft_fail_never_raises {A} (m : M A) (handler : exn -> M A) :
  only_sqlite m -> (forall e, never_raises (handler e)) ->
  never_raises (try_except m is_sqlite_Error handler).
Proof.
  intros Hm Hh s. unfold try_except.
  destruct (m s) as [[a|e] s0] eqn:E; [eauto|].
  rewrite (Hm _ _ _ E). apply Hh.
Qed.

(** The liveness probe answers [True] or [False]; it never raises. *)
Lemma probe_never_raises : never_raises (_is_connection_closed engine).
Proof.
  intros s. unfold _is_connection_closed, try_except, bind, get_connection.
  destruct (connection s) as [h|]; cbn; [|eauto].
  unfold driver.
  pose proof (conn_execute_no_overflow h "SELECT 1" (PTuple []) eq_refl (world s)) as Hx.
  destruct (conn_execute engine h _ _ (world s)) as [[c|m|] w]; cbn; eauto.
  by destruct Hx.
Qed.

Lemma only_sqlite_probe : only_sqlite (_is_connection_closed engine).
Proof.
  intros s e s' H. destruct (probe_never_raises s) as (b & s0 & E). congruence.
Qed.

Lemma only_sqlite_open_connection : only_sqlite (open_connection).
Proof.
  intros s e s' H. unfold open_connection in H.
  revert H. apply only_sqlite_bind; auto 10 with raises.
Qed.

Lemma only_sqlite_connect : only_sqlite (connect engine).
Proof.
  unfold connect. apply only_sqlite_try.
  - apply only_sqlite_bind; [auto with raises|]. intros [h|].
    + apply only_sqlite_bind; [apply only_sqlite_probe|].
      intros b. apply only_sqlite_if; [apply only_sqlite_open_connection|auto with raises].
    + apply only_sqlite_open_connection.
  - auto with raises.
Qed.

(** With parameters that can be bound, [execute] and [executemany] raise
    nothing but [sqlite3.Error]. *)
Lemma only_sqlite_execute sql params :
  bindable (bound_params params) = true -> only_sqlite (execute engine sql params).
Proof.
  intros Hp. unfold execute. apply only_sqlite_bind; [apply only_sqlite_connect|].
  intros conn. apply only_sqlite_try; [|auto with raises].
  apply only_sqlite_bind; [|auto with raises].
  unfold bound_params in Hp. destruct (params_truthy params); auto with raises.
Qed.

Lemma only_sqlite_executemany sql ps :
  Forall (fun p => bindable p = true) ps -> only_sqlite (executemany engine sql ps).
Proof.
  intros Hps. unfold executemany. apply only_sqlite_bind; [apply only_sqlite_connect|].
  intros conn. auto 10 with raises.
Qed.

(** *** The one exception that is not a [sqlite3.Error] *)

(** [only_driver_exn m]: whatever [m] raises is a [sqlite3.Error] or the
    driver's [OverflowError]. *)
Definition only_driver_exn {A} (m : M A) : Prop :=
  forall s e s', m s = (Raise e, s') -> is_sqlite_Error e = true \/ e = overflow_error.

Lemma only_sqlite_driver_exn {A} (m : M A) : only_sqlite m -> only_driver_exn m.
Proof. intros Hm s e s' H. left. exact (Hm _ _ _ H). Qed.

Lemma only_driver_exn_driver {A} (d : World -> dres A * World) :
  only_driver_exn (driver d).
Proof.
  intros s e s' H. unfold driver in H.
  destruct (d (world s)) as [[a|m|] w]; simplify_eq; [by left|by right].
Qed.

Lemma only_driver_exn_bind {A B} (m : M A) (k : A -> M B) :
  only_driver_exn m -> (forall a, only_driver_exn (k a)) -> only_driver_exn (bind m k).
Proof.
  intros Hm Hk s e s' H. unfold bind in H.
  destruct (m s) as [[a|e0] s0] eqn:E.
  - exact (Hk a _ _ _ H).
  - simplify_eq. exact (Hm _ _ _ E).
Qed.

Lemma only_driver_exn_try {A} (m : M A) catches handler :
  only_driver_exn m -> (forall e, catches e = true -> only_driver_exn (handler e)) ->
  only_driver_exn (try_except m catches handler).
Proof.
  intros Hm Hh s e s' H. unfold try_except in H.
  destruct (m s) as [[a|e0] s0] eqn:E; [discriminate H|].
  destruct (catches e0) eqn:C.
  - exact (Hh _ C _ _ _ H).
  - simplify_eq. exact (Hm _ _ _ E).
Qed.

Lemma only_driver_exn_execute sql params : only_driver_exn (execute engine sql params).
Proof.
  unfold execute. apply only_driver_exn_bind.
  { apply only_sqlite_driver_exn, only_sqlite_connect. }
  intros conn. apply only_driver_exn_try.
  - apply only_driver_exn_bind.
    + destruct (params_truthy params); apply only_driver_exn_driver.
    + intros c. apply only_sqlite_driver_exn. auto with raises.
  - intros e He. apply only_sqlite_driver_exn. auto with raises.
Qed.

Lemma only_driver_exn_executemany sql ps :
  only_driver_exn (executemany engine sql ps).
Proof.
  unfold executemany. apply only_driver_exn_bind.
  { apply only_sqlite_driver_exn, only_sqlite_connect. }
  intros conn. apply only_driver_exn_try.
  - apply only_driver_exn_bind; [apply only_driver_exn_driver|].
    intros c. apply only_sqlite_driver_exn. auto with raises.
  - intros e He. apply only_sqlite_driver_exn. auto with raises.
Qed.

(** What [execute] raises that is not a [sqlite3.Error] comes from a
    parameter that cannot be bound. *)
Lemma execute_overflow_unbindable sql params s e s' :
  execute engine sql params s = (Raise e, s') ->
  is_sqlite_Error e = false ->
  e = overflow_error /\ bindable (bound_params params) = false.
Proof.
  intros H He. split.
  - destruct (only_driver_exn_execute _ _ _ _ _ H); congruence.
  - destruct (bindable (bound_params params)) eqn:B; [|reflexivity].
    rewrite (only_sqlite_execute _ _ B _ _ _ H) in He. discriminate.
Qed.

Lemma only_sqlite_commit : only_sqlite commit.
Proof.
  unfold commit. apply only_sqlite_bind; [auto with raises|].
  intros [h|]; auto 10 with raises.
Qed.

Lemma only_sqlite_rollback : only_sqlite rollback.
Proof.
  unfold rollback. apply only_sqlite_bind; [auto with raises|].
  intros [h|]; auto 10 with raises.
Qed.

(** *** Soft-fail table operations *)

(** C10. [insert_many] called with an empty record list returns [True] at
    once: the object, the world (handles, database, statement history) and
    the log are left exactly as they were, so no statement is executed and
    no transaction is opened. *)
Theorem insert_many_empty (table_name : string) (or_replace : bool) (s : State) :
  insert_many engine table_name [] or_replace s = (Return true, s).
Proof. reflexivity. Qed.

Lemma select_returns (table_name columns : string) (where_ : option string)
    (params : option Params) (order_by : option string) (limit offset : option Z) :
  bindable (bound_params params) = true ->
  never_raises (select engine table_name columns where_ params order_by limit offset).
Proof.
  intros Hp. unfold select. apply soft_fail_never_raises.
  - apply only_sqlite_bind; [by apply only_sqlite_execute|auto with raises].
  - intros e s0. cbn. eauto.
Qed.

Lemma select_run (table_name columns : string) (where_ : option string)
    (params : option Params) (order_by : option string) (limit offset : option Z)
    (s : State) :
  select engine table_name columns where_ params order_by limit offset s =
  match execute engine (select_sql table_name columns where_ order_by limit offset)
                params s with
  | (Return cursor, s1) =>
      (Return (fetchall cursor),
       add_log DEBUG ("查询到 " ++ pretty (length (fetchall cursor)) ++ " 条记录") s1)
  | (Raise e, s1) =>
      if is_sqlite_Error e
      then (Return [], add_log ERROR ("查询记录失败: " ++ str_exn e) s1)
      else (Raise e, s1)
  end.
Proof.
  unfold select, try_except, bind.
  destruct (execute engine _ params s) as [[cursor|e] s1]; [reflexivity|].
  destruct (is_sqlite_Error e); reflexivity.
Qed.



(** *** Connection lifecycle *)

Lemma probe_run (s : State) (h : nat) :
  connection s = Some h ->
  _is_connection_closed engine s =
  match conn_execute engine h "SELECT 1" (PTuple []) (world s) with
  | (DOk _, w) => (Return false, set_world_of w s)
  | (DErr _, w) => (Return true, set_world_of w s)
  | (DOverflow, w) => (Raise overflow_error, set_world_of w s)
  end.
Proof.
  intros Hc. unfold _is_connection_closed, try_except, bind, get_connection, driver.
  rewrite Hc. destruct (conn_execute engine h _ _ (world s)) as [[c|m|] w]; reflexivity.
Qed.

Lemma open_connection_run (s : State) :
  open_connection s =
  match sqlite3_connect (db_path s) (timeout s) (check_same_thread s) (world s) with
  | (DOk h, w) =>
      (Return h,
       add_log INFO ("成功连接到数据库: " ++ db_path s)
         (set_world_of (set_row_factory h w) (set_connection_of (Some h) s)))
  | (DErr m, w) => (Raise (SqliteError m), set_world_of w s)
  | (DOverflow, w) => (Raise overflow_error, set_world_of w s)
  end.
Proof.
  unfold open_connection, bind, driver.
  destruct (sqlite3_connect _ _ _ (world s)) as [[h|m|] w]; reflexivity.
Qed.

(** [needs_open s s1]: [connect] finds no usable handle in [s], and [s1] is
    the state in which it then calls [sqlite3.connect]: [s] itself when no
    handle is cached, [s] after the failed probe otherwise. *)
Definition needs_open (s s1 : State) : Prop :=
  (connection s = None /\ s1 = s)
  \/ (exists h m w, connection s = Some h
        /\ conn_execute engine h "SELECT 1" (PTuple []) (world s) = (DErr m, w)
        /\ s1 = set_world_of w s).

Lemma connect_open_run (s s1 : State) :
  needs_open s s1 ->
  connect engine s =
  match open_connection s1 with
  | (Return h, s2) => (Return h, s2)
  | (Raise e, s2) => (Raise e, add_log ERROR ("连接数据库失败: " ++ str_exn e) s2)
  end.
Proof.
  intros [[Hc ->]|(h & m & w & Hc & Hp & ->)].
  - unfold connect, try_except, bind, get_connection. rewrite Hc.
    destruct (open_connection s) as [[h|e] s2] eqn:E; [reflexivity|].
    rewrite (only_sqlite_open_connection _ _ _ E). reflexivity.
  - unfold connect, try_except, bind, get_connection. rewrite Hc.
    rewrite (probe_run s h Hc), Hp.
    destruct (open_connection _) as [[h'|e] s2] eqn:E; [reflexivity|].
    rewrite (only_sqlite_open_connection _ _ _ E). reflexivity.
Qed.

Lemma connect_live_run (s : State) (h : nat) (cur : Cursor) (w : World) :
  connection s = Some h ->
  conn_execute engine h "SELECT 1" (PTuple []) (world s) = (DOk cur, w) ->
  connect engine s = (Return h, set_world_of w s).
Proof.
  intros Hc Hp. unfold connect, try_except, bind, get_connection.
  rewrite Hc, (probe_run s h Hc), Hp. reflexivity.
Qed.

Lemma pop_fault_frame (w : World) (f : option string) (w' : World) :
  pop_fault w = (f, w') ->
  handles w' = handles w /\ disk w' = disk w /\ history w' = history w.
Proof.
  unfold pop_fault. destruct (faults w); intros H; simplify_eq; auto.
Qed.

Lemma conn_execute_handles_length h sql p w r w' :
  conn_execute engine h sql p w = (r, w') ->
  length (handles w') = length (handles w).
Proof.
  unfold conn_execute, on_open_handle, run_statement. cbn.
  destruct (handles w !! h) as [hd|]; [|intros; simplify_eq; reflexivity].
  destruct (h_closed hd); [intros; simplify_eq; reflexivity|].
  destruct (pop_fault _) as [[m|] w1] eqn:F; apply pop_fault_frame in F as (F1 & _ & _);
    cbn in F1; [intros; simplify_eq; congruence|].
  destruct (engine sql p _) as [m|[db' cur]]; [intros; simplify_eq; congruence|].
  destruct (bindable p), (is_dml sql), (bool_decide _); cbn;
    intros; simplify_eq; cbn; rewrite ?length_insert; congruence.
Qed.

Lemma sqlite3_connect_ok path tmo cst w h w' :
  sqlite3_connect path tmo cst w = (DOk h, w') ->
  h = length (handles w)
  /\ handles w' = (handles w ++ [mkHandle path tmo cst false false None])%list
  /\ disk w' = disk w.
Proof.
  unfold sqlite3_connect.
  destruct (pop_fault w) as [[m|] w1] eqn:F; intros H; simplify_eq.
  apply pop_fault_frame in F as (-> & -> & _). auto.
Qed.

(** C6. [connect()]: when a handle is cached and the liveness probe
    [SELECT 1] succeeds on it, that handle is returned and the number of
    driver handles is unchanged (nothing is opened); when no handle is cached
    or the probe fails, [sqlite3.connect] is called with the object's path,
    timeout and [check_same_thread], and the handle it returns (a fresh one,
    carrying that timeout and thread policy) is cached and returned. *)
Theorem connect_reuses_or_reopens (s : State) :
  (forall h cur w,
      connection s = Some h ->
      conn_execute engine h "SELECT 1" (PTuple []) (world s) = (DOk cur, w) ->
      connect engine s = (Return h, set_world_of w s)
      /\ length (handles w) = length (handles (world s)))
  /\ (forall s1,
      needs_open s s1 ->
      match sqlite3_connect (db_path s) (timeout s) (check_same_thread s) (world s1) with
      | (DOk h', w') =>
          exists s',
            connect engine s = (Return h', s')
            /\ connection s' = Some h'
            /\ h' = length (handles (world s1))
            /\ handles (world s') !! h'
               = Some (mkHandle (db_path s) (timeout s) (check_same_thread s)
                                true false None)
      | (DErr m, w') =>
          connect engine s
          = (Raise (SqliteError m),
             add_log ERROR ("连接数据库失败: " ++ m) (set_world_of w' s1))
      | (DOverflow, _) => False
      end).
Proof.
  split.
  - intros h cur w Hc Hp. split; [exact (connect_live_run s h cur w Hc Hp)|].
    exact (conn_execute_handles_length _ _ _ _ _ _ Hp).
  - intros s1 Hn. rewrite (connect_open_run s s1 Hn), open_connection_run.
    assert (db_path s1 = db_path s /\ timeout s1 = timeout s
            /\ check_same_thread s1 = check_same_thread s) as (-> & -> & ->).
    { destruct Hn as [[_ ->]|(h & m & w & _ & _ & ->)]; auto. }
    pose proof (sqlite3_connect_no_overflow (db_path s) (timeout s)
                  (check_same_thread s) (world s1)) as Hx.
    destruct (sqlite3_connect _ _ _ (world s1)) as [[h'|m|] w'] eqn:E;
      [|reflexivity|by destruct Hx].
    apply sqlite3_connect_ok in E as (-> & Hh & _).
    eexists. split; [reflexivity|]. split; [reflexivity|]. split; [reflexivity|].
    cbn. unfold set_row_factory. rewrite Hh, list_lookup_middle by reflexivity.
    cbn. rewrite Hh. apply list_lookup_insert_eq. rewrite length_app. cbn. lia.
Qed.

Lemma close_none_run (s : State) :
  connection s = None -> close s = (Return (), s).
Proof. intros Hc. unfold close, bind, get_connection. rewrite Hc. reflexivity. Qed.

Lemma close_run (s : State) (h : nat) :
  connection s = Some h ->
  close s =
  match conn_close h (world s) with
  | (DOk _, w) =>
      (Return (),
       add_log INFO "数据库连接已关闭" (set_connection_of None (set_world_of w s)))
  | (DErr m, w) =>
      (Return (), add_log ERROR ("关闭数据库连接失败: " ++ m) (set_world_of w s))
  | (DOverflow, w) => (Raise overflow_error, set_world_of w s)
  end.
Proof.
  intros Hc. unfold close, try_except, bind, get_connection, driver. rewrite Hc.
  destruct (conn_close h (world s)) as [[[]|m|] w]; reflexivity.
Qed.

(** C5. [close()] on an object whose cached handle is [None] changes
    nothing; a [close()] that the driver accepts sets the cached handle to
    [None]; hence, whenever the first [close()] finds no handle or succeeds,
    [close(); close()] ends in the same state as a single [close()]. *)
Theorem close_idempotent (s : State) :
  (connection s = None -> close s = (Return (), s))
  /\ (forall h w,
        connection s = Some h -> conn_close h (world s) = (DOk (), w) ->
        close s = (Return (),
                   add_log INFO "数据库连接已关闭"
                     (set_connection_of None (set_world_of w s)))
        /\ connection (close s).2 = None)
  /\ (connection s = None
      \/ (exists h w, connection s = Some h /\ conn_close h (world s) = (DOk (), w)) ->
      (close ;; close) s = close s).
Proof.
  split; [apply close_none_run|]. split.
  - intros h w Hc Hd. rewrite (close_run s h Hc), Hd. auto.
  - intros [Hc|(h & w & Hc & Hd)]; unfold bind at 1.
    + rewrite (close_none_run s Hc). apply close_none_run, Hc.
    + rewrite (close_run s h Hc), Hd. reflexivity.
Qed.

Lemma rollback_run (s : State) (h : nat) :
  connection s = Some h ->
  rollback s =
  match conn_rollback h (world s) with
  | (DOk _, w) => (Return (), add_log DEBUG "事务已回滚" (set_world_of w s))
  | (DErr m, w) =>
      (Raise (SqliteError m), add_log ERROR ("回滚事务失败: " ++ m) (set_world_of w s))
  | (DOverflow, w) => (Raise overflow_error, set_world_of w s)
  end.
Proof.
  intros Hc. unfold rollback, try_except, bind, get_connection, driver. rewrite Hc.
  destruct (conn_rollback h (world s)) as [[[]|m|] w]; reflexivity.
Qed.

Lemma commit_run (s : State) (h : nat) :
  connection s = Some h ->
  commit s =
  match conn_commit h (world s) with
  | (DOk _, w) => (Return (), add_log DEBUG "事务已提交" (set_world_of w s))
  | (DErr m, w) =>
      (Raise (SqliteError m), add_log ERROR ("提交事务失败: " ++ m) (set_world_of w s))
  | (DOverflow, w) => (Raise overflow_error, set_world_of w s)
  end.
Proof.
  intros Hc. unfold commit, try_except, bind, get_connection, driver. rewrite Hc.
  destruct (conn_commit h (world s)) as [[[]|m|] w]; reflexivity.
Qed.

(** A driver call on a handle that fails leaves every handle as it was. *)
Lemma conn_rollback_err h w m w' :
  conn_rollback h w = (DErr m, w') -> handles w' = handles w.
Proof.
  unfold conn_rollback, on_open_handle.
  destruct (handles w !! h) as [hd|]; [|intros; simplify_eq; reflexivity].
  destruct (h_closed hd); [intros; simplify_eq; reflexivity|].
  destruct (pop_fault w) as [[m'|] w1] eqn:F; intros; simplify_eq.
  by apply pop_fault_frame in F as (-> & _).
Qed.

(** [__exit__] rolls back exactly when it is given an exception, and reaches
    [close()] exactly when that rollback returns. *)
Lemma exit_run (exc : option exn) (s : State) :
  __exit__ exc s =
  match exc with
  | None => close s
  | Some _ =>
      match rollback s with
      | (Return _, s1) => close s1
      | (Raise e, s1) => (Raise e, s1)
      end
  end.
Proof.
  unfold __exit__, bind at 1. destruct exc as [e|].
  - rewrite bool_decide_true by eauto. destruct (rollback s) as [[[]|e'] s1]; reflexivity.
  - rewrite bool_decide_false by (intros [? ?]; discriminate). reflexivity.
Qed.

(** C4 (the exit path that does not close).  When the object is left
    through [__exit__] because of an exception and the driver's rollback
    fails, [__exit__] raises the rollback error before it reaches
    [close()]: the handle is still cached and still open. *)
Theorem exit_rollback_failure_skips_close (s : State) (h : nat) (hd : Handle)
    (e : exn) (m : string) (w : World) :
  connection s = Some h ->
  handles (world s) !! h = Some hd ->
  h_closed hd = false ->
  conn_rollback h (world s) = (DErr m, w) ->
  __exit__ (Some e) s
  = (Raise (SqliteError m), add_log ERROR ("回滚事务失败: " ++ m) (set_world_of w s))
  /\ connection (__exit__ (Some e) s).2 = Some h
  /\ handles (world (__exit__ (Some e) s).2) !! h = Some hd.
Proof.
  intros Hc Hh Ho Hr.
  assert (__exit__ (Some e) s
          = (Raise (SqliteError m),
             add_log ERROR ("回滚事务失败: " ++ m) (set_world_of w s))) as E.
  { unfold __exit__, bind. rewrite bool_decide_true by eauto.
    rewrite (rollback_run s h Hc), Hr. reflexivity. }
  rewrite E. cbn. rewrite (conn_rollback_err _ _ _ _ Hr). auto.
Qed.

(** *** Transaction scope *)

Lemma conn_rollback_ok h w w' :
  conn_rollback h w = (DOk (), w') ->
  exists hd, handles w !! h = Some hd /\ h_closed hd = false
             /\ handles w' = <[h := with_tx hd None]> (handles w)
             /\ disk w' = disk w.
Proof.
  unfold conn_rollback, on_open_handle.
  destruct (handles w !! h) as [hd|]; [|intros; simplify_eq].
  destruct (h_closed hd) eqn:Ho; [intros; simplify_eq|].
  destruct (pop_fault w) as [[m'|] w1] eqn:F; intros; simplify_eq.
  apply pop_fault_frame in F as (F1 & F2 & _). exists hd. cbn. rewrite F1, F2. auto.
Qed.

(** The transaction scope as the specification words it: whatever exception
    [e] leaves the block, if the driver's rollback succeeds the scope ends by
    raising [e], in the state the block left, rolled back and with the
    rollback logged. *)
Definition rolls_back_then_reraises {A} (body : nat -> M A) (s : State) : Prop :=
  forall conn s1 e s2 w3,
    connect engine s = (Return conn, s1) ->
    body conn s1 = (Raise e, s2) ->
    conn_rollback conn (world s2) = (DOk (), w3) ->
    transaction engine body s
    = (Raise e, add_log ERROR ("事务回滚: " ++ str_exn e) (set_world_of w3 s2)).

(** C1 (amended).  If the block of [with self.transaction()] raises an
    exception [e] that is an instance of [Exception], and the driver's
    rollback succeeds, the scope rolls back the state the block left (the
    handle has no open transaction afterwards), logs it, and raises [e]
    itself. *)
Theorem transaction_rollback_then_reraise {A} (body : nat -> M A) (s : State)
    (conn : nat) (s1 : State) (e : exn) (s2 : State) (w3 : World) :
  connect engine s = (Return conn, s1) ->
  body conn s1 = (Raise e, s2) ->
  is_Exception e = true ->
  conn_rollback conn (world s2) = (DOk (), w3) ->
  transaction engine body s
  = (Raise e, add_log ERROR ("事务回滚: " ++ str_exn e) (set_world_of w3 s2))
  /\ exists hd, handles w3 !! conn = Some hd /\ h_tx hd = None.
Proof.
  intros Hc Hb He Hr. split.
  - unfold transaction, bind at 1. rewrite Hc.
    unfold try_except, bind at 1. rewrite Hb, He.
    unfold bind, driver. rewrite Hr. reflexivity.
  - apply conn_rollback_ok in Hr as (hd & Hh & _ & -> & _).
    exists (with_tx hd None). split; [|reflexivity].
    apply list_lookup_insert_eq. by eapply lookup_lt_Some.
Qed.

(** *** The propagating tier *)

Lemma execute_run (sql : string) (params : option Params) (s : State) :
  execute engine sql params s =
  match connect engine s with
  | (Return conn, s1) =>
      match conn_execute engine conn sql (bound_params params) (world s1) with
      | (DOk cursor, w) =>
          (Return cursor, add_log DEBUG ("执行SQL: " ++ sql) (set_world_of w s1))
      | (DErr m, w) =>
          (Raise (SqliteError m),
           add_log ERROR ("执行SQL失败: " ++ sql ++ ", 错误: " ++ m) (set_world_of w s1))
      | (DOverflow, w) => (Raise overflow_error, set_world_of w s1)
      end
  | (Raise e, s1) => (Raise e, s1)
  end.
Proof.
  unfold execute, bind at 1. destruct (connect engine s) as [[conn|e] s1]; [|reflexivity].
  unfold try_except, bind, bound_params.
  destruct (params_truthy params); unfold driver;
    destruct (conn_execute engine conn sql _ (world s1)) as [[c|m|] w]; reflexivity.
Qed.

Lemma executemany_run (sql : string) (ps : list Params) (s : State) :
  executemany engine sql ps s =
  match connect engine s with
  | (Return conn, s1) =>
      match conn_executemany engine conn sql ps (world s1) with
      | (DOk cursor, w) =>
          (Return cursor,
           add_log DEBUG ("批量执行SQL: " ++ sql ++ ", 记录数: " ++ pretty (length ps))
             (set_world_of w s1))
      | (DErr m, w) =>
          (Raise (SqliteError m),
           add_log ERROR ("批量执行SQL失败: " ++ sql ++ ", 错误: " ++ m) (set_world_of w s1))
      | (DOverflow, w) => (Raise overflow_error, set_world_of w s1)
      end
  | (Raise e, s1) => (Raise e, s1)
  end.
Proof.
  unfold executemany, bind at 1. destruct (connect engine s) as [[conn|e] s1]; [|reflexivity].
  unfold try_except, bind, driver.
  destruct (conn_executemany engine conn sql ps (world s1)) as [[c|m|] w]; reflexivity.
Qed.

(** [close()] as the specification places it, in the propagating tier: a
    driver error on closing would reach the caller. *)
Definition close_reraises (s : State) : Prop :=
  forall h m w,
    connection s = Some h -> conn_close h (world s) = (DErr m, w) ->
    exists s', close s = (Raise (SqliteError m), s').

(** C2 (amended).  When the driver raises [sqlite3.Error(m)] under
    [connect] (opening a handle), [execute], [executemany], [commit] or
    [rollback], the method logs an ERROR record carrying [m] and raises that
    same error.  [close] logs the ERROR record too, but returns normally:
    it does not re-raise (and leaves the handle cached). *)
Theorem driver_errors_reraised_except_close (s : State) (m : string) :
  (forall s1 w,
      needs_open s s1 ->
      sqlite3_connect (db_path s) (timeout s) (check_same_thread s) (world s1)
        = (DErr m, w) ->
      connect engine s
      = (Raise (SqliteError m), add_log ERROR ("连接数据库失败: " ++ m) (set_world_of w s1)))
  /\ (forall sql params conn s1 w,
      connect engine s = (Return conn, s1) ->
      conn_execute engine conn sql (bound_params params) (world s1) = (DErr m, w) ->
      execute engine sql params s
      = (Raise (SqliteError m),
         add_log ERROR ("执行SQL失败: " ++ sql ++ ", 错误: " ++ m) (set_world_of w s1)))
  /\ (forall sql params_list conn s1 w,
      connect engine s = (Return conn, s1) ->
      conn_executemany engine conn sql params_list (world s1) = (DErr m, w) ->
      executemany engine sql params_list s
      = (Raise (SqliteError m),
         add_log ERROR ("批量执行SQL失败: " ++ sql ++ ", 错误: " ++ m) (set_world_of w s1)))
  /\ (forall h w,
      connection s = Some h -> conn_commit h (world s) = (DErr m, w) ->
      commit s
      = (Raise (SqliteError m), add_log ERROR ("提交事务失败: " ++ m) (set_world_of w s)))
  /\ (forall h w,
      connection s = Some h -> conn_rollback h (world s) = (DErr m, w) ->
      rollback s
      = (Raise (SqliteError m), add_log ERROR ("回滚事务失败: " ++ m) (set_world_of w s)))
  /\ (forall h w,
      connection s = Some h -> conn_close h (world s) = (DErr m, w) ->
      close s
      = (Return (), add_log ERROR ("关闭数据库连接失败: " ++ m) (set_world_of w s))
      /\ connection (close s).2 = Some h).
Proof.
  split; [|split; [|split; [|split; [|split]]]].
  - intros s1 w Hn Hd. rewrite (connect_open_run s s1 Hn), open_connection_run.
    assert (db_path s1 = db_path s /\ timeout s1 = timeout s
            /\ check_same_thread s1 = check_same_thread s) as (-> & -> & ->).
    { destruct Hn as [[_ ->]|(h & m' & w' & _ & _ & ->)]; auto. }
    rewrite Hd. reflexivity.
  - intros sql params conn s1 w Hc Hd. rewrite execute_run, Hc, Hd. reflexivity.
  - intros sql ps conn s1 w Hc Hd. rewrite executemany_run, Hc, Hd. reflexivity.
  - intros h w Hc Hd. rewrite (commit_run s h Hc), Hd. reflexivity.
  - intros h w Hc Hd. rewrite (rollback_run s h Hc), Hd. reflexivity.
  - intros h w Hc Hd. rewrite (close_run s h Hc), Hd. auto.
Qed.

(** *** What reaches the driver *)

Lemma conn_execute_history h sql p w r w' :
  conn_execute engine h sql p w = (r, w') ->
  history w' = (history w ++ [(h, sql, p)])%list.
Proof.
  unfold conn_execute, on_open_handle, run_statement. cbn.
  destruct (handles w !! h) as [hd|]; [|intros; simplify_eq; reflexivity].
  destruct (h_closed hd); [intros; simplify_eq; reflexivity|].
  destruct (pop_fault _) as [[m|] w1] eqn:F; apply pop_fault_frame in F as (_ & _ & F3);
    cbn in F3; [intros; simplify_eq; congruence|].
  destruct (engine sql p _) as [m|[db' cur]]; [intros; simplify_eq; congruence|].
  destruct (bindable p), (is_dml sql), (bool_decide _); cbn;
    intros; simplify_eq; cbn; congruence.
Qed.

Lemma sqlite3_connect_history path tmo cst w r w' :
  sqlite3_connect path tmo cst w = (r, w') -> history w' = history w.
Proof.
  unfold sqlite3_connect.
  destruct (pop_fault w) as [[m|] w1] eqn:F; apply pop_fault_frame in F as (_ & _ & F3);
    intros; simplify_eq; cbn; congruence.
Qed.

Lemma set_row_factory_history h w : history (set_row_factory h w) = history w.
Proof. unfold set_row_factory. destruct (handles w !! h); reflexivity. Qed.

Lemma conn_commit_history h w r w' :
  conn_commit h w = (r, w') -> history w' = history w.
Proof.
  unfold conn_commit, on_open_handle.
  destruct (handles w !! h) as [hd|]; [|intros; simplify_eq; reflexivity].
  destruct (h_closed hd); [intros; simplify_eq; reflexivity|].
  destruct (pop_fault w) as [[m|] w1] eqn:F; apply pop_fault_frame in F as (_ & _ & F3);
    [intros; simplify_eq; congruence|].
  destruct (h_tx hd); intros; simplify_eq; cbn; congruence.
Qed.

(** The statements [connect] submits: the liveness probe, when a handle is
    cached. *)
Definition probe_of (s : State) : list (nat * string * Params) :=
  match connection s with
  | Some h => [(h, "SELECT 1", PTuple [])]
  | None => []
  end.

Lemma open_connection_history (s : State) :
  history (world (open_connection s).2) = history (world s).
Proof.
  rewrite open_connection_run.
  destruct (sqlite3_connect _ _ _ (world s)) as [[h|m|] w] eqn:E;
    apply sqlite3_connect_history in E; cbn; rewrite ?set_row_factory_history; exact E.
Qed.

Lemma connect_history (s : State) :
  history (world (connect engine s).2) = (history (world s) ++ probe_of s)%list.
Proof.
  unfold probe_of. destruct (connection s) as [h|] eqn:Hc.
  - pose proof (conn_execute_no_overflow h "SELECT 1" (PTuple []) eq_refl (world s)) as Hx.
    destruct (conn_execute engine h "SELECT 1" (PTuple []) (world s)) as [[cur|m|] w] eqn:Hp;
      [| |by destruct Hx].
    + rewrite (connect_live_run s h cur w Hc Hp). cbn.
      exact (conn_execute_history _ _ _ _ _ _ Hp).
    + rewrite (connect_open_run s (set_world_of w s)) by (right; eauto 6).
      pose proof (open_connection_history (set_world_of w s)) as Ho.
      destruct (open_connection _) as [[h'|e] s2]; cbn in *; rewrite Ho;
        exact (conn_execute_history _ _ _ _ _ _ Hp).
  - rewrite (connect_open_run s s) by (left; auto).
    pose proof (open_connection_history s) as Ho.
    destruct (open_connection s) as [[h'|e] s2]; cbn in *; rewrite Ho, app_nil_r; reflexivity.
Qed.

Lemma commit_history (s : State) :
  history (world (commit s).2) = history (world s).
Proof.
  destruct (connection s) as [h|] eqn:Hc.
  - rewrite (commit_run s h Hc).
    destruct (conn_commit h (world s)) as [[[]|m|] w] eqn:E;
      apply conn_commit_history in E; exact E.
  - unfold commit, bind, get_connection. rewrite Hc. reflexivity.
Qed.

Lemma update_params_app (data : Dict) (where_params : option (list value)) :
  update_params data where_params = (values data ++ default [] where_params)%list.
Proof.
  unfold update_params. destruct where_params as [[|v l]|]; cbn; rewrite ?app_nil_r; reflexivity.
Qed.

Lemma update_run (table_name : string) (data : Dict) (where_ : string)
    (where_params : option (list value)) (s : State) :
  update engine table_name data where_ where_params s =
    match execute engine (update_sql table_name data where_)
            (Some (PTuple (values data ++ default [] where_params))) s with
    | (Return cursor, s1) =>
        match commit s1 with
        | (Return _, s2) =>
            (Return (rowcount cursor),
             add_log INFO ("更新 " ++ pretty (rowcount cursor) ++ " 条记录") s2)
        | (Raise e, s2) =>
            (Return 0%Z, add_log ERROR ("更新记录失败: " ++ str_exn e) s2)
        end
    | (Raise e, s1) =>
        if is_sqlite_Error e
        then (Return 0%Z, add_log ERROR ("更新记录失败: " ++ str_exn e) s1)
        else (Raise e, s1)
    end.
Proof.
  unfold update, try_except, bind. rewrite update_params_app.
  destruct (execute engine _ _ s) as [[cursor|e] s1] eqn:Ex.
  - destruct (commit s1) as [[[]|e] s2] eqn:Ec; [reflexivity|].
    rewrite (only_sqlite_commit _ _ _ Ec). reflexivity.
  - destruct (is_sqlite_Error e); reflexivity.
Qed.


(** *** [insert_many] and [count] *)

(** The state [s] with an empty fault schedule. *)
Definition quiet (s : State) : State :=
  set_world_of (mkWorld (handles (world s)) (disk (world s)) [] (history (world s))) s.

(** What [count(table)] answers in state [s] when no environmental fault
    interferes with the call. *)
Definition count_seen (t : string) (s : State) : outcome value :=
  (count engine t None None (quiet s)).1.

(** The cached handle has no uncommitted change. *)
Definition no_open_tx (s : State) : Prop :=
  forall h hd,
    connection s = Some h -> handles (world s) !! h = Some hd -> h_tx hd = None.

(** The database the object's next statement will read. *)
Definition visible_db (s : State) : DB :=
  match connection s with
  | Some h =>
      match handles (world s) !! h with
      | Some hd => if h_closed hd then disk (world s) else view hd (world s)
      | None => disk (world s)
      end
  | None => disk (world s)
  end.

(** [insert_many] as the specification words it: all [N] rows and [True],
    or no change and [False], judged by [count]. *)
Definition all_or_nothing (t : string) (data_list : list Dict) (or_replace : bool)
    (s : State) : Prop :=
  let r := insert_many engine t data_list or_replace s in
  exists n,
    count_seen t s = Return (VInt n)
    /\ ((r.1 = Return true
         /\ count_seen t r.2 = Return (VInt (n + Z.of_nat (length data_list))))
        \/ (r.1 = Return false /\ count_seen t r.2 = Return (VInt n))).

Lemma visible_db_clean (s : State) :
  no_open_tx s -> visible_db s = disk (world s).
Proof.
  intros Hn. unfold visible_db.
  destruct (connection s) as [h|] eqn:Hc; [|reflexivity].
  destruct (handles (world s) !! h) as [hd|] eqn:Hh; [|reflexivity].
  destruct (h_closed hd); [reflexivity|].
  unfold view. rewrite (Hn h hd Hc Hh). reflexivity.
Qed.

Lemma with_tx_same (hd : Handle) : with_tx hd (h_tx hd) = hd.
Proof. destruct hd; reflexivity. Qed.

Lemma sqlite3_connect_err path tmo cst w m w' :
  sqlite3_connect path tmo cst w = (DErr m, w') ->
  handles w' = handles w /\ disk w' = disk w.
Proof.
  unfold sqlite3_connect.
  destruct (pop_fault w) as [[m'|] w1] eqn:F; intros H; simplify_eq.
  apply pop_fault_frame in F as (-> & -> & _). auto.
Qed.

Lemma conn_commit_err h w m w' :
  conn_commit h w = (DErr m, w') -> handles w' = handles w /\ disk w' = disk w.
Proof.
  unfold conn_commit, on_open_handle.
  destruct (handles w !! h) as [hd|]; [|intros; simplify_eq; auto].
  destruct (h_closed hd); [intros; simplify_eq; auto|].
  destruct (pop_fault w) as [[m'|] w1] eqn:F; apply pop_fault_frame in F as (F1 & F2 & _).
  - intros; simplify_eq; auto.
  - destruct (h_tx hd); intros; simplify_eq.
Qed.

Lemma conn_commit_ok h w w' :
  conn_commit h w = (DOk (), w') ->
  exists hd, handles w !! h = Some hd /\ h_closed hd = false
             /\ handles w' = <[h := with_tx hd None]> (handles w)
             /\ disk w' = view hd w.
Proof.
  unfold conn_commit, on_open_handle.
  destruct (handles w !! h) as [hd|] eqn:Hh; [|intros; simplify_eq].
  destruct (h_closed hd) eqn:Ho; [intros; simplify_eq|].
  destruct (pop_fault w) as [[m'|] w1] eqn:F; apply pop_fault_frame in F as (F1 & F2 & _);
    [intros; simplify_eq|].
  exists hd. unfold view. destruct (h_tx hd) eqn:Ht; intros; simplify_eq; cbn.
  - rewrite F1. auto.
  - rewrite F1, F2. repeat split; auto.
    symmetry. apply list_insert_id. rewrite Hh. f_equal.
    rewrite <- Ht. symmetry. apply with_tx_same.
Qed.

Lemma conn_rollback_disk h w r w' :
  conn_rollback h w = (r, w') -> disk w' = disk w.
Proof.
  unfold conn_rollback, on_open_handle.
  destruct (handles w !! h) as [hd|]; [|intros; simplify_eq; auto].
  destruct (h_closed hd); [intros; simplify_eq; auto|].
  destruct (pop_fault w) as [[m'|] w1] eqn:F; apply pop_fault_frame in F as (F1 & F2 & _);
    intros; simplify_eq; auto.
Qed.

Lemma insert_row_size t cols vs rowid db db' c :
  insert_row false t cols vs rowid db = inr (db', c) ->
  table_size t db' = (table_size t db + 1)%Z.
Proof.
  unfold insert_row, table_size, DB in *.
  destruct (db !! t) as [tb|]; [|discriminate].
  destruct (negb (forallb _ cols)); [discriminate|].
  destruct (negb (bool_decide _)); [discriminate|].
  destruct (existsb _ (t_rows tb)); [discriminate|].
  intros H. simplify_eq. rewrite lookup_insert_eq. cbn.
  rewrite length_app. cbn. lia.
Qed.

Lemma only_sqlite_try_inner {A} (m : M A) catches handler :
  only_sqlite m ->
  (forall e, is_sqlite_Error e = true -> only_sqlite (handler e)) ->
  only_sqlite (try_except m catches handler).
Proof.
  intros Hm Hh s e s' H. unfold try_except in H.
  destruct (m s) as [[a|e0] s0] eqn:E; [discriminate H|].
  pose proof (Hm _ _ _ E) as He0. destruct (catches e0).
  - exact (Hh e0 He0 _ _ _ H).
  - injection H as <- <-. exact He0.
Qed.

(** A transaction scope adds no exception of its own kind: around a block
    that raises only [sqlite3.Error], it raises only [sqlite3.Error]. *)
Lemma only_sqlite_transaction {A} (body : nat -> M A) :
  (forall conn, only_sqlite (body conn)) -> only_sqlite (transaction engine body).
Proof.
  intros Hb. unfold transaction.
  apply only_sqlite_bind; [apply only_sqlite_connect|]. intros conn.
  apply only_sqlite_try_inner; auto 10 with raises.
Qed.

Lemma only_driver_exn_try_inner {A} (m : M A) catches handler :
  only_driver_exn m ->
  (forall e, is_sqlite_Error e = true \/ e = overflow_error ->
             only_driver_exn (handler e)) ->
  only_driver_exn (try_except m catches handler).
Proof.
  intros Hm Hh s e s' H. unfold try_except in H.
  destruct (m s) as [[a|e0] s0] eqn:E; [discriminate H|].
  pose proof (Hm _ _ _ E) as He0. destruct (catches e0).
  - exact (Hh e0 He0 _ _ _ H).
  - injection H as <- <-. exact He0.
Qed.

(** Around a block that raises only what the driver raises, the scope
    raises only what the driver raises. *)
Lemma only_driver_exn_transaction {A} (body : nat -> M A) :
  (forall conn, only_driver_exn (body conn)) ->
  only_driver_exn (transaction engine body).
Proof.
  intros Hb. unfold transaction.
  apply only_driver_exn_bind; [apply only_sqlite_driver_exn, only_sqlite_connect|].
  intros conn. apply only_driver_exn_try_inner.
  - apply only_driver_exn_bind; [apply Hb|]. intros a.
    apply only_sqlite_driver_exn. auto 10 with raises.
  - intros e He. apply only_driver_exn_bind; [apply only_driver_exn_driver|].
    intros _. apply only_driver_exn_bind; [apply only_sqlite_driver_exn; auto with raises|].
    intros _ s0 e0 s0' H. injection H as <- _. exact He.
Qed.

(** *** A call that no environmental fault disturbs *)

Lemma conn_execute_faults h sql p w r w' :
  faults w = [] -> conn_execute engine h sql p w = (r, w') -> faults w' = [].
Proof.
  intros Hf. unfold conn_execute, on_open_handle, pop_fault, run_statement,
    record_statement. cbn. rewrite Hf.
  destruct (handles w !! h) as [hd|]; [|intros; simplify_eq; reflexivity].
  destruct (h_closed hd); [intros; simplify_eq; reflexivity|].
  destruct (engine sql p _) as [m|[db' cur]]; [intros; simplify_eq; reflexivity|].
  destruct (bindable p), (is_dml sql), (bool_decide _); cbn;
    intros; simplify_eq; cbn; reflexivity || exact Hf.
Qed.

Lemma run_many_faults h sql ps :
  forall n w r w',
    faults w = [] -> run_many engine h sql ps n w = (r, w') -> faults w' = [].
Proof.
  induction ps as [|p ps IH]; intros n w r w' Hf; cbn.
  - intros; simplify_eq. exact Hf.
  - destruct (conn_execute engine h sql p w) as [[c|m|] w1] eqn:E;
      apply conn_execute_faults in E; try exact Hf.
    + apply IH, E.
    + intros; simplify_eq. exact E.
    + intros; simplify_eq. exact E.
Qed.

Lemma conn_rollback_quiet h hd w :
  handles w !! h = Some hd -> h_closed hd = false -> faults w = [] ->
  conn_rollback h w = (DOk (), set_handle h (with_tx hd None) w).
Proof.
  intros Hh Ho Hf. unfold conn_rollback, on_open_handle, pop_fault.
  rewrite Hh, Ho, Hf. reflexivity.
Qed.

Lemma conn_commit_quiet h hd w :
  handles w !! h = Some hd -> h_closed hd = false -> faults w = [] ->
  exists w', conn_commit h w = (DOk (), w').
Proof.
  intros Hh Ho Hf. unfold conn_commit, on_open_handle, pop_fault.
  rewrite Hh, Ho, Hf. destruct (h_tx hd); eauto.
Qed.

Lemma agrees_cases (a b : string + (DB * Cursor)) :
  agrees a b ->
  (exists m m', a = inl m /\ b = inl m') \/ (exists x, a = inr x /\ b = inr x).
Proof.
  destruct a as [m|x], b as [m'|y]; cbn; intros H; try done; [left|right]; eauto.
  subst. eauto.
Qed.

Lemma agrees_refl (a : string + (DB * Cursor)) : agrees a a.
Proof. destruct a; cbn; auto. Qed.

Section Engine_assumptions.

(** What the engine is assumed to do with the statements involved: the
    liveness probe succeeds and changes nothing; the [COUNT] statement
    counts the rows of the table; the generated plain [INSERT], run with
    values that can be bound, stores one row, as [insert_row] describes. *)
Variable t : string.
Variable first : Dict.
Hypothesis engine_probe :
  forall db, exists c, engine "SELECT 1" (PTuple []) db = inr (db, c).
Hypothesis engine_count :
  forall db, engine (count_sql t None) (PTuple []) db = count_rows t db.
Hypothesis engine_insert :
  forall vs db,
    bindable (PTuple vs) = true ->
    exists rowid,
      agrees (engine (insert_sql false t first) (PTuple vs) db)
             (insert_row false t (keys first) vs rowid db).

(** A statement that the engine answers without changing the database, and
    that is not DML, leaves the world as it found it. *)
Lemma run_statement_readonly h sql p hd w c :
  handles w !! h = Some hd ->
  is_dml sql = false ->
  bindable p = true ->
  engine sql p (view hd w) = inr (view hd w, c) ->
  exists w', run_statement engine h sql p hd w = (DOk c, w')
             /\ handles w' = handles w /\ disk w' = disk w
             /\ faults w' = faults w.
Proof.
  intros Hh Hd Hp He. unfold run_statement. rewrite He, Hd, Hp. cbn.
  destruct (h_tx hd) as [db|] eqn:Ht.
  - rewrite bool_decide_true by eauto. eexists. split; [reflexivity|]. cbn.
    repeat split. apply list_insert_id. rewrite Hh. f_equal.
    unfold view. rewrite Ht. cbn. rewrite <- Ht. symmetry. apply with_tx_same.
  - rewrite bool_decide_false by (intros [? ?]; discriminate).
    eexists. split; [reflexivity|]. cbn. unfold view. rewrite Ht. auto.
Qed.

(** The liveness probe changes neither the handles nor the file. *)
Lemma probe_frame h w r w' :
  conn_execute engine h "SELECT 1" (PTuple []) w = (r, w') ->
  handles w' = handles w /\ disk w' = disk w
  /\ (forall c, r = DOk c ->
        exists hd, handles w !! h = Some hd /\ h_closed hd = false).
Proof.
  unfold conn_execute, on_open_handle. cbn.
  destruct (handles w !! h) as [hd|] eqn:Hh;
    [|intros; simplify_eq; cbn; repeat split; intros; discriminate].
  destruct (h_closed hd) eqn:Ho;
    [intros; simplify_eq; cbn; repeat split; intros; discriminate|].
  destruct (pop_fault _) as [[m|] w1] eqn:F; apply pop_fault_frame in F as (F1 & F2 & _);
    cbn in F1, F2; [intros; simplify_eq; cbn; repeat split; auto; intros; discriminate|].
  destruct (engine_probe (view hd w1)) as (c & Hc).
  destruct (run_statement_readonly h "SELECT 1" (PTuple []) hd w1 c) as (w2 & E & G1 & G2 & _);
    [congruence|reflexivity|reflexivity|exact Hc|].
  rewrite E. intros; simplify_eq. repeat split; [congruence..|]. eauto.
Qed.

(** The handle record [connect] creates. *)
Definition fresh_handle (s : State) : Handle :=
  mkHandle (db_path s) (timeout s) (check_same_thread s) true false None.

Lemma open_connection_frame (s : State) r s1 :
  open_connection s = (r, s1) ->
  disk (world s1) = disk (world s)
  /\ ((exists e, r = Raise e) /\ handles (world s1) = handles (world s)
       /\ connection s1 = connection s
      \/ r = Return (length (handles (world s)))
         /\ connection s1 = Some (length (handles (world s)))
         /\ handles (world s1) = (handles (world s) ++ [fresh_handle s])%list).
Proof.
  rewrite open_connection_run.
  pose proof (sqlite3_connect_no_overflow (db_path s) (timeout s)
                (check_same_thread s) (world s)) as Hx.
  destruct (sqlite3_connect _ _ _ (world s)) as [[h|m|] w] eqn:E;
    [| |by destruct Hx]; intros H; simplify_eq.
  - apply sqlite3_connect_ok in E as (-> & Hh & Hd). cbn.
    unfold set_row_factory. rewrite Hh, list_lookup_middle by reflexivity. cbn.
    split; [exact Hd|]. right. repeat split.
    rewrite Hh, insert_app_r_alt by lia. rewrite Nat.sub_diag. reflexivity.
  - apply sqlite3_connect_err in E as (Hh & Hd). cbn. split; [exact Hd|]. left. eauto.
Qed.

Lemma connect_frame (s : State) r s1 :
  connect engine s = (r, s1) ->
  disk (world s1) = disk (world s)
  /\ (handles (world s1) = handles (world s) /\ connection s1 = connection s
       /\ (forall h, r = Return h ->
             connection s = Some h
             /\ exists hd, handles (world s) !! h = Some hd /\ h_closed hd = false)
      \/ r = Return (length (handles (world s)))
         /\ connection s1 = Some (length (handles (world s)))
         /\ handles (world s1) = (handles (world s) ++ [fresh_handle s])%list).
Proof.
  intros H.
  assert (forall s0, needs_open s s0 -> handles (world s0) = handles (world s) ->
            disk (world s0) = disk (world s) -> connection s0 = connection s ->
            fresh_handle s0 = fresh_handle s ->
            disk (world s1) = disk (world s)
            /\ (handles (world s1) = handles (world s) /\ connection s1 = connection s
                 /\ (forall h, r = Return h ->
                       connection s = Some h
                       /\ exists hd, handles (world s) !! h = Some hd /\ h_closed hd = false)
                \/ r = Return (length (handles (world s)))
                   /\ connection s1 = Some (length (handles (world s)))
                   /\ handles (world s1) = (handles (world s) ++ [fresh_handle s])%list))
    as Hopen.
  { intros s0 Hn Hh Hd Hc Hf. rewrite (connect_open_run s s0 Hn) in H.
    destruct (open_connection s0) as [r0 s2] eqn:E.
    apply open_connection_frame in E as (Hd' & [((e & ->) & Hh' & Hc')|(-> & Hc' & Hh')]);
      injection H as <- <-; cbn.
    - split; [congruence|]. left. repeat split; [congruence..|]. intros; discriminate.
    - split; [congruence|]. right. rewrite <- Hh, <- Hf. auto. }
  destruct (connection s) as [h|] eqn:Hc.
  - pose proof (conn_execute_no_overflow h "SELECT 1" (PTuple []) eq_refl (world s)) as Hx.
    destruct (conn_execute engine h "SELECT 1" (PTuple []) (world s)) as [[cur|m|] w] eqn:Hp;
      [| |by destruct Hx].
    + rewrite (connect_live_run s h cur w Hc Hp) in H. simplify_eq. cbn.
      apply probe_frame in Hp as (Hh & Hd & Hl). split; [exact Hd|]. left.
      repeat split; [exact Hh|exact Hc|congruence|].
      simplify_eq. eauto.
    + pose proof Hp as Hp'. apply probe_frame in Hp' as (Hh & Hd & _).
      apply (Hopen (set_world_of w s)); [right; eauto 6|exact Hh|exact Hd|exact Hc|reflexivity].
  - apply (Hopen s); [left|..]; auto.
Qed.

(** After [connect] on an object without uncommitted changes: the file is
    untouched, earlier handles keep their records, and the handle returned
    is open, cached, and has no transaction. *)
Lemma connect_clean (s : State) r s1 :
  no_open_tx s ->
  connect engine s = (r, s1) ->
  disk (world s1) = disk (world s)
  /\ no_open_tx s1
  /\ (forall h' hd', handles (world s) !! h' = Some hd' ->
                     handles (world s1) !! h' = Some hd')
  /\ (forall h, r = Return h ->
        connection s1 = Some h
        /\ exists hd, handles (world s1) !! h = Some hd
                      /\ h_closed hd = false /\ h_tx hd = None).
Proof.
  intros Hn H. apply connect_frame in H as (Hd & [(Hh & Hc & Hr)|(-> & Hc & Hh)]).
  - split; [exact Hd|]. split; [|split].
    + intros h hd. rewrite Hc, Hh. apply Hn.
    + intros h' hd'. rewrite Hh. auto.
    + intros h E. destruct (Hr h E) as (Hc' & hd & Hl & Ho).
      split; [congruence|]. exists hd. rewrite Hh. eauto.
  - assert (handles (world s1) !! length (handles (world s)) = Some (fresh_handle s)) as Hl.
    { rewrite Hh. apply list_lookup_middle. reflexivity. }
    split; [exact Hd|]. split; [|split].
    + intros h hd. rewrite Hc. intros E. simplify_eq. rewrite Hl. intros; simplify_eq. reflexivity.
    + intros h' hd' E. rewrite Hh, lookup_app_l by (by eapply lookup_lt_Some). exact E.
    + intros h E. simplify_eq. split; [exact Hc|]. exists (fresh_handle s). auto.
Qed.

Lemma insert_sql_is_dml (or_replace : bool) (table_name : string) (d : Dict) :
  is_dml (insert_sql or_replace table_name d) = true.
Proof. destruct or_replace; reflexivity. Qed.

(** One bound INSERT on an open handle: it fails and leaves handles and file
    alone, or it stops at a value that cannot be bound, with the
    transaction open and nothing written, or it adds one row to the
    handle's transaction. *)
Lemma insert_step hb hd vs w r w' :
  handles w !! hb = Some hd -> h_closed hd = false ->
  conn_execute engine hb (insert_sql false t first) (PTuple vs) w = (r, w') ->
  disk w' = disk w
  /\ ((exists m, r = DErr m) /\ handles w' = handles w
      \/ r = DOverflow
         /\ handles w' = <[hb := with_tx hd (Some (view hd w))]> (handles w)
      \/ exists c db', r = DOk c
           /\ handles w' = <[hb := with_tx hd (Some db')]> (handles w)
           /\ table_size t db' = (table_size t (view hd w) + 1)%Z).
Proof.
  intros Hh Ho. unfold conn_execute, on_open_handle. cbn. rewrite Hh, Ho.
  destruct (pop_fault _) as [[m|] w1] eqn:F; apply pop_fault_frame in F as (F1 & F2 & _);
    cbn in F1, F2.
  - intros; simplify_eq. split; [exact F2|]. left. eauto.
  - assert (view hd w1 = view hd w) as Hv by (unfold view; by rewrite F2).
    unfold run_statement. rewrite insert_sql_is_dml. cbn.
    destruct (forallb bindable_value vs) eqn:B; cbn.
    + destruct (engine_insert vs (view hd w1) B) as (rowid & Ha).
      apply agrees_cases in Ha as [(m & m' & -> & _)|([db' c] & -> & E)].
      * intros; simplify_eq. split; [exact F2|]. left. eauto.
      * intros; simplify_eq. cbn. split; [exact F2|]. right. right. exists c, db'.
        rewrite F1. repeat split. apply insert_row_size in E. rewrite E, Hv. reflexivity.
    + destruct (engine _ (PTuple vs) (view hd w1)) as [m|[db' c]].
      * intros; simplify_eq. split; [exact F2|]. left. eauto.
      * intros; simplify_eq. cbn. split; [exact F2|]. right. left.
        rewrite F1, Hv. auto.
Qed.

(** The batch: the file is untouched; the handle stays open; if every row
    went in, the handle's transaction holds exactly that many more rows. *)
Lemma run_many_insert hb (data_list : list Dict) :
  forall n hd w r w',
    handles w !! hb = Some hd -> h_closed hd = false ->
    run_many engine hb (insert_sql false t first)
             ((fun data => PTuple (values data)) <$> data_list) n w = (r, w') ->
    disk w' = disk w
    /\ exists hd', handles w' = <[hb := hd']> (handles w) /\ h_closed hd' = false
        /\ (forall c, r = DOk c ->
              table_size t (view hd' w')
              = (table_size t (view hd w) + Z.of_nat (length data_list))%Z).
Proof.
  induction data_list as [|d rest IH]; intros n hd w r w' Hh Ho; cbn.
  - intros H. simplify_eq. split; [reflexivity|]. exists hd.
    rewrite list_insert_id by exact Hh. repeat split; [exact Ho|]. intros. lia.
  - destruct (conn_execute engine hb _ (PTuple (values d)) w) as [[c|m|] w1] eqn:E;
      apply (insert_step hb hd) in E
        as (Hd & [((m' & Em) & Hs)|[(Em & Hs)|(c' & db' & Ec & Hs & Hsz)]]);
      try exact Hh; try exact Ho; simplify_eq.
    + intros H.
      apply (IH _ (with_tx hd (Some db'))) in H as (Hd' & hd' & Hs' & Ho' & Hsz').
      * split; [congruence|]. exists hd'. rewrite Hs', Hs, list_insert_insert_eq.
        repeat split; [exact Ho'|]. intros c0 E0. rewrite (Hsz' c0 E0).
        change (view (with_tx hd (Some db')) w1) with db'. rewrite Hsz. lia.
      * rewrite Hs. apply list_lookup_insert_eq. by eapply lookup_lt_Some.
      * destruct hd; exact Ho.
    + intros H. simplify_eq. split; [exact Hd|]. exists hd.
      rewrite Hs, list_insert_id by exact Hh. repeat split; [exact Ho|]. intros; discriminate.
    + intros H. simplify_eq. split; [exact Hd|]. exists (with_tx hd (Some (view hd w))).
      repeat split; [exact Hs|by destruct hd|intros; discriminate].
Qed.

(** The [except Exception] handler of the transaction scope. *)
Definition rollback_handler {A} (conn : nat) (e : exn) (s : State) : outcome A * State :=
  match conn_rollback conn (world s) with
  | (DOk _, w) => (Raise e, add_log ERROR ("事务回滚: " ++ str_exn e) (set_world_of w s))
  | (DErr m, w) => (Raise (SqliteError m), set_world_of w s)
  | (DOverflow, w) => (Raise overflow_error, set_world_of w s)
  end.

Lemma transaction_run {A} (body : nat -> M A) (s : State) :
  transaction engine body s =
  match connect engine s with
  | (Return conn, s1) =>
      match body conn s1 with
      | (Return a, s2) =>
          match conn_commit conn (world s2) with
          | (DOk _, w) => (Return a, add_log INFO "事务提交成功" (set_world_of w s2))
          | (DErr m, w) => rollback_handler conn (SqliteError m) (set_world_of w s2)
          | (DOverflow, w) => rollback_handler conn overflow_error (set_world_of w s2)
          end
      | (Raise e, s2) =>
          if is_Exception e then rollback_handler conn e s2 else (Raise e, s2)
      end
  | (Raise e, s1) => (Raise e, s1)
  end.
Proof.
  unfold transaction, bind at 1.
  destruct (connect engine s) as [[conn|e] s1]; [|reflexivity].
  unfold try_except, bind at 1.
  destruct (body conn s1) as [[a|e] s2].
  - unfold bind at 1, driver. destruct (conn_commit conn (world s2)) as [[[]|m|] w]; cbn.
    + reflexivity.
    + unfold rollback_handler, bind, driver. cbn.
      destruct (conn_rollback conn w) as [[[]|m'|] w']; reflexivity.
    + unfold rollback_handler, bind, driver. cbn.
      destruct (conn_rollback conn w) as [[[]|m'|] w']; reflexivity.
  - destruct (is_Exception e); [|reflexivity].
    unfold rollback_handler, bind, driver.
    destruct (conn_rollback conn (world s2)) as [[[]|m'|] w']; reflexivity.
Qed.

(** The handler raises the exception it was given or the [sqlite3.Error] of
    a failed rollback, and leaves the file alone. *)
Lemma rollback_handler_effect {A} conn (e : exn) (s : State) r s' :
  @rollback_handler A conn e s = (r, s') ->
  (exists e', r = Raise e' /\ (e' = e \/ is_sqlite_Error e' = true))
  /\ disk (world s') = disk (world s).
Proof.
  unfold rollback_handler.
  pose proof (conn_rollback_no_overflow conn (world s)) as Hx.
  destruct (conn_rollback conn (world s)) as [[[]|m|] w] eqn:E;
    [| |by destruct Hx];
    apply conn_rollback_disk in E; intros H; simplify_eq; cbn; eauto.
Qed.

Lemma sqlite_is_Exception (e : exn) : is_sqlite_Error e = true -> is_Exception e = true.
Proof. destruct e; [reflexivity|discriminate..]. Qed.

(** The transaction of [insert_many] on an object without uncommitted
    changes: when it returns, the table the object reads holds exactly
    [length data_list] more rows than the file did; when it raises, the
    exception is a [sqlite3.Error] or the driver's [OverflowError], and the
    file is unchanged. *)
Lemma insert_tx_effect (data_list : list Dict) (s : State) r s' :
  no_open_tx s ->
  transaction engine
    (fun _ => executemany engine (insert_sql false t first)
                ((fun data => PTuple (values data)) <$> data_list)) s = (r, s') ->
  match r with
  | Return _ =>
      table_size t (visible_db s')
      = (table_size t (disk (world s)) + Z.of_nat (length data_list))%Z
  | Raise e =>
      (is_sqlite_Error e = true \/ e = overflow_error)
      /\ disk (world s') = disk (world s)
  end.
Proof.
  intros Hn. rewrite transaction_run.
  destruct (connect engine s) as [[h1|e] s1] eqn:C1.
  2: { intros H. simplify_eq. split; [left; exact (only_sqlite_connect _ _ _ C1)|].
       by apply connect_frame in C1 as (? & _). }
  destruct (connect_clean s _ _ Hn C1) as (D1 & Hn1 & _ & R1).
  destruct (R1 h1 eq_refl) as (Hc1 & hd1 & Hl1 & Ho1 & Ht1).
  rewrite executemany_run.
  destruct (connect engine s1) as [[hb|e] s2] eqn:C2.
  2: { pose proof (only_sqlite_connect _ _ _ C2) as He.
       rewrite (sqlite_is_Exception e He). intros H.
       apply rollback_handler_effect in H as ((e' & -> & He') & D).
       split; [left; destruct He'; congruence|].
       apply connect_frame in C2 as (? & _). congruence. }
  destruct (connect_clean s1 _ _ Hn1 C2) as (D2 & Hn2 & P2 & R2).
  destruct (R2 hb eq_refl) as (Hc2 & hdb & Hlb & Hob & Htb).
  unfold conn_executemany. rewrite insert_sql_is_dml. cbn [negb].
  destruct (run_many engine hb _ _ 0 (world s2)) as [[cur|m|] w3] eqn:EM;
    apply (run_many_insert hb data_list 0 hdb) in EM as (D3 & hd' & Hs3 & Ho3 & Hsz3);
    try assumption.
  - cbn [world add_log set_world_of].
    pose proof (conn_commit_no_overflow h1 w3) as Hx.
    destruct (conn_commit h1 w3) as [[[]|m|] w4] eqn:CM; [| |by destruct Hx].
    + intros H. simplify_eq. specialize (Hsz3 cur eq_refl).
      apply conn_commit_ok in CM as (hd1' & Hl1' & Ho1' & Hs4 & D4).
      unfold visible_db. cbn. rewrite Hc2.
      assert (view hdb (world s2) = disk (world s)) as Hv.
      { unfold view. rewrite Htb. cbn. congruence. }
      rewrite Hv in Hsz3. rewrite <- Hsz3.
      assert (hb < length (handles (world s2))) as Hlt by (by eapply lookup_lt_Some).
      destruct (decide (hb = h1)) as [->|Hne].
      * rewrite Hs3, list_lookup_insert_eq in Hl1' by exact Hlt. simplify_eq.
        rewrite Hs4, list_lookup_insert_eq by (rewrite Hs3, length_insert; exact Hlt).
        destruct hd1'; cbn in *. rewrite Ho3. unfold view. cbn. rewrite D4. reflexivity.
      * rewrite Hs3, list_lookup_insert_ne in Hl1' by exact Hne.
        rewrite (P2 _ _ Hl1) in Hl1'. simplify_eq.
        rewrite Hs4, list_lookup_insert_ne by congruence.
        rewrite Hs3, list_lookup_insert_eq by exact Hlt. rewrite Ho3.
        unfold view in *. rewrite Ht1 in D4. cbn in D4. rewrite D4. reflexivity.
    + intros H. apply conn_commit_err in CM as (_ & D4).
      apply rollback_handler_effect in H as ((e' & -> & He') & D).
      split; [left; destruct He'; subst; auto|]. cbn in D. congruence.
  - cbn [is_Exception]. intros H.
    apply rollback_handler_effect in H as ((e' & -> & He') & D).
    split; [left; destruct He'; subst; auto|]. cbn in D. congruence.
  - change (is_Exception overflow_error) with true. cbn iota. intros H.
    apply rollback_handler_effect in H as ((e' & -> & He') & D).
    split; [destruct He'; subst; auto|]. cbn in D. congruence.
Qed.

Lemma insert_many_run (table_name : string) (d : Dict) (rest : list Dict)
    (or_replace : bool) (s : State) :
  insert_many engine table_name (d :: rest) or_replace s =
  match transaction engine
          (fun _ => executemany engine (insert_sql or_replace table_name d)
                      ((fun data => PTuple (values data)) <$> d :: rest)) s with
  | (Return _, s') =>
      (Return true,
       add_log INFO ("批量插入 " ++ pretty (length (d :: rest)) ++ " 条记录成功") s')
  | (Raise e, s') =>
      if is_sqlite_Error e
      then (Return false, add_log ERROR ("批量插入记录失败: " ++ str_exn e) s')
      else (Raise e, s')
  end.
Proof.
  unfold insert_many, try_except. unfold bind at 1.
  destruct (transaction engine _ s) as [[c|e] s']; reflexivity.
Qed.

Lemma insert_many_effect (rest : list Dict) (s : State) :
  no_open_tx s ->
  let r := insert_many engine t (first :: rest) false s in
  (r.1 = Return true
   /\ table_size t (visible_db r.2)
      = (table_size t (disk (world s)) + Z.of_nat (length (first :: rest)))%Z)
  \/ (r.1 = Return false /\ disk (world r.2) = disk (world s))
  \/ (r.1 = Raise overflow_error /\ disk (world r.2) = disk (world s)).
Proof.
  intros Hn r. subst r. rewrite insert_many_run.
  destruct (transaction engine _ s) as [[c|e] s'] eqn:E;
    apply (insert_tx_effect (first :: rest)) in E; try exact Hn.
  - left. split; [reflexivity|exact E].
  - destruct E as ([He| ->] & D).
    + rewrite He. right. left. auto.
    + right. right. auto.
Qed.

(** What [insert_many] lets through comes from a record that holds a value
    the driver cannot bind. *)
Lemma insert_many_raise_unbindable (table_name : string) (data_list : list Dict)
    (or_replace : bool) (s : State) e s' :
  insert_many engine table_name data_list or_replace s = (Raise e, s') ->
  forallb (fun data => bindable (PTuple (values data))) data_list = false.
Proof.
  destruct data_list as [|d rest]; [discriminate|].
  rewrite insert_many_run. intros H.
  destruct (forallb _ (d :: rest)) eqn:B; [exfalso|reflexivity].
  destruct (transaction engine _ s) as [[c|e0] s0] eqn:T; [discriminate H|].
  assert (is_sqlite_Error e0 = true) as He.
  { revert T. apply only_sqlite_transaction. intros conn.
    apply only_sqlite_executemany. apply Forall_fmap, Forall_forall.
    intros x Hx. rewrite forallb_forall in B. apply B.
    by apply list_elem_of_In. }
  rewrite He in H. discriminate H.
Qed.

(** *** [count] without environmental faults *)

Lemma conn_execute_quiet h hd sql p w :
  handles w !! h = Some hd -> h_closed hd = false -> faults w = [] ->
  conn_execute engine h sql p w
  = run_statement engine h sql p hd (record_statement h sql p w).
Proof.
  intros Hh Ho Hf. unfold conn_execute, on_open_handle, pop_fault. cbn.
  rewrite Hh, Ho, Hf. reflexivity.
Qed.

Lemma open_connection_quiet (s : State) :
  faults (world s) = [] ->
  exists h s1 hd,
    open_connection s = (Return h, s1)
    /\ connection s1 = Some h /\ handles (world s1) !! h = Some hd
    /\ h_closed hd = false /\ view hd (world s1) = disk (world s)
    /\ faults (world s1) = [].
Proof.
  intros Hf. rewrite open_connection_run. unfold sqlite3_connect, pop_fault. rewrite Hf.
  eexists _, _, (fresh_handle s). split; [reflexivity|]. cbn.
  unfold set_row_factory. cbn. rewrite list_lookup_middle by reflexivity. cbn.
  rewrite insert_app_r_alt by lia. rewrite Nat.sub_diag. cbn.
  rewrite list_lookup_middle by reflexivity. auto.
Qed.

(** With no fault pending, [connect] returns an open handle that reads
    [visible_db]. *)
Lemma connect_quiet (s : State) :
  faults (world s) = [] ->
  exists h s1 hd,
    connect engine s = (Return h, s1)
    /\ handles (world s1) !! h = Some hd
    /\ h_closed hd = false /\ view hd (world s1) = visible_db s
    /\ faults (world s1) = [].
Proof.
  intros Hf.
  assert (forall s0, needs_open s s0 -> faults (world s0) = [] ->
            disk (world s0) = visible_db s ->
            exists h s1 hd,
              connect engine s = (Return h, s1)
              /\ handles (world s1) !! h = Some hd
              /\ h_closed hd = false /\ view hd (world s1) = visible_db s
              /\ faults (world s1) = []) as Hopen.
  { intros s0 Hn Hf0 Hv. rewrite (connect_open_run s s0 Hn).
    destruct (open_connection_quiet s0 Hf0) as (h & s1 & hd & -> & _ & Hl & Ho & Hv' & Hf1).
    exists h, s1, hd. repeat split; auto. congruence. }
  unfold visible_db in *. destruct (connection s) as [h|] eqn:Hc.
  2: { apply (Hopen s); [left|..]; auto. }
  assert (handles (world s) !! h = None
          \/ (exists hd, handles (world s) !! h = Some hd /\ h_closed hd = true) ->
          needs_open s (set_world_of (record_statement h "SELECT 1" (PTuple []) (world s)) s))
    as Hstale.
  { intros Hs. right. exists h, closed_msg, (record_statement h "SELECT 1" (PTuple []) (world s)).
    split; [exact Hc|]. split; [|reflexivity].
    destruct Hs as [Hn|(hd & Hl & Ho)]; unfold conn_execute, on_open_handle; cbn.
    - rewrite Hn. reflexivity.
    - rewrite Hl, Ho. reflexivity. }
  destruct (handles (world s) !! h) as [hd|] eqn:Hl.
  - destruct (h_closed hd) eqn:Ho.
    + apply (Hopen (set_world_of (record_statement h "SELECT 1" (PTuple []) (world s)) s));
        [apply Hstale; eauto|exact Hf|reflexivity].
    + destruct (engine_probe (view hd (record_statement h "SELECT 1" (PTuple []) (world s))))
        as (c & Hp).
      destruct (run_statement_readonly h "SELECT 1" (PTuple []) hd
                  (record_statement h "SELECT 1" (PTuple []) (world s)) c)
        as (w' & E & G1 & G2 & G3); [exact Hl|reflexivity|reflexivity|exact Hp|].
      exists h, (set_world_of w' s), hd. split.
      { apply (connect_live_run s h c w' Hc). rewrite (conn_execute_quiet h hd) by assumption.
        exact E. }
      cbn. rewrite G1, G3. cbn. repeat split; auto. unfold view. rewrite G2. reflexivity.
  - apply (Hopen (set_world_of (record_statement h "SELECT 1" (PTuple []) (world s)) s));
      [apply Hstale; eauto|exact Hf|reflexivity].
Qed.

Lemma count_sql_not_dml (table_name : string) : is_dml (count_sql table_name None) = false.
Proof. reflexivity. Qed.

(** With no fault pending, [count(t)] answers the number of rows of [t] in
    the database the object reads (and [0] when [t] does not exist). *)
Lemma count_seen_spec (s : State) :
  count_seen t s = Return (VInt (table_size t (visible_db s))).
Proof.
  unfold count_seen, count, try_except, bind. rewrite execute_run.
  destruct (connect_quiet (quiet s) eq_refl) as (h & s1 & hd & -> & Hl & Ho & Hv & Hf).
  change (visible_db (quiet s)) with (visible_db s) in Hv.
  change (bound_params None) with (PTuple []).
  rewrite (conn_execute_quiet h hd) by assumption.
  set (w := record_statement h (count_sql t None) (PTuple []) (world s1)).
  assert (view hd w = visible_db s) as Hv' by exact Hv.
  unfold table_size. destruct (visible_db s !! t) as [tb|] eqn:Ht.
  - destruct (run_statement_readonly h (count_sql t None) (PTuple []) hd w
                (mkCursor [[("count", VInt (Z.of_nat (length (t_rows tb))))]] None (-1)))
      as (w' & E & _); [exact Hl|apply count_sql_not_dml|reflexivity| |].
    { rewrite engine_count, Hv'. unfold count_rows. rewrite Ht. reflexivity. }
    rewrite E. reflexivity.
  - unfold run_statement. rewrite engine_count, Hv'. unfold count_rows. rewrite Ht. reflexivity.
Qed.

(** A live cached handle that nothing disturbs passes the probe. *)
Lemma connect_live_quiet (s : State) h hd :
  connection s = Some h -> handles (world s) !! h = Some hd ->
  h_closed hd = false -> faults (world s) = [] ->
  exists s1, connect engine s = (Return h, s1)
             /\ handles (world s1) = handles (world s)
             /\ connection s1 = Some h /\ faults (world s1) = [].
Proof.
  intros Hc Hl Ho Hf.
  destruct (engine_probe (view hd (record_statement h "SELECT 1" (PTuple []) (world s))))
    as (c & Hp).
  destruct (run_statement_readonly h "SELECT 1" (PTuple []) hd
              (record_statement h "SELECT 1" (PTuple []) (world s)) c)
    as (w' & E & G1 & G2 & G3); [exact Hl|reflexivity|reflexivity|exact Hp|].
  exists (set_world_of w' s). split.
  { apply (connect_live_run s h c w' Hc). rewrite (conn_execute_quiet h hd) by assumption.
    exact E. }
  cbn. rewrite G1, G3. auto.
Qed.

(** With no fault pending, a transaction of [insert_many] that raises has
    rolled back: the object's handle has no open transaction. *)
Lemma insert_tx_quiet (data_list : list Dict) (s : State) e s' :
  no_open_tx s -> faults (world s) = [] ->
  transaction engine
    (fun _ => executemany engine (insert_sql false t first)
                ((fun data => PTuple (values data)) <$> data_list)) s = (Raise e, s') ->
  no_open_tx s'.
Proof.
  intros Hn Hf. rewrite transaction_run.
  destruct (connect_quiet s Hf) as (h1 & s1 & hd1 & C1 & Hl1 & Ho1 & _ & Hf1).
  rewrite C1.
  destruct (connect_clean s _ _ Hn C1) as (_ & _ & _ & R1).
  destruct (R1 h1 eq_refl) as (Hc1 & _).
  rewrite executemany_run.
  destruct (connect_live_quiet s1 h1 hd1 Hc1 Hl1 Ho1 Hf1) as (s2 & C2 & Hh2 & Hc2 & Hf2).
  rewrite C2. unfold conn_executemany. rewrite insert_sql_is_dml. cbn [negb].
  rewrite <- Hh2 in Hl1.
  destruct (run_many engine h1 _ _ 0 (world s2)) as [r3 w3] eqn:EM.
  pose proof (run_many_faults _ _ _ _ _ _ _ Hf2 EM) as Hf3.
  apply (run_many_insert h1 data_list 0 hd1) in EM as (_ & hd' & Hs3 & Ho3 & _);
    try assumption.
  assert (handles w3 !! h1 = Some hd') as Hl3.
  { rewrite Hs3. apply list_lookup_insert_eq. by eapply lookup_lt_Some. }
  assert (forall (s0 : State) e0 (r : outcome Cursor) s'',
            world s0 = w3 -> connection s0 = Some h1 ->
            rollback_handler h1 e0 s0 = (r, s'') -> no_open_tx s'') as Hrb.
  { intros s0 e0 r s'' Hw Hc0 H. unfold rollback_handler in H.
    rewrite Hw, (conn_rollback_quiet h1 hd' w3 Hl3 Ho3 Hf3) in H. simplify_eq.
    intros h hd. cbn. rewrite Hc0. intros ? Hl. simplify_eq.
    rewrite list_lookup_insert_eq in Hl by (by eapply lookup_lt_Some).
    by simplify_eq. }
  destruct r3 as [cur|m|].
  - cbn [world add_log set_world_of].
    destruct (conn_commit_quiet h1 hd' w3 Hl3 Ho3 Hf3) as (w4 & ->). discriminate.
  - cbn [is_Exception]. intros H. apply (Hrb _ _ _ _) with (3 := H); [reflexivity|exact Hc2].
  - change (is_Exception overflow_error) with true. cbn iota.
    intros H. apply (Hrb _ _ _ _) with (3 := H); [reflexivity|exact Hc2].
Qed.

Lemma insert_many_quiet (rest : list Dict) (s : State) :
  no_open_tx s -> faults (world s) = [] ->
  let r := insert_many engine t (first :: rest) false s in
  r.1 <> Return true -> no_open_tx r.2.
Proof.
  intros Hn Hf r. subst r. rewrite insert_many_run.
  destruct (transaction engine _ s) as [[c|e] s'] eqn:E; [intros H; by destruct H|].
  apply (insert_tx_quiet (first :: rest)) in E; [|exact Hn|exact Hf].
  intros _. destruct (is_sqlite_Error e); exact E.
Qed.


End Engine_assumptions.

End Properties.

(** ** The theorems at concrete inputs *)

(** A block that inserts a row and then fails with the exception [e]. *)
Definition failing_block (e : exn) : nat -> M Cursor := fun _ =>
  (execute users_engine "INSERT INTO users (id, name) VALUES (?, ?)"
           (Some (PTuple [VInt 2; VText "B"])) ;;
   raise e)%py.

(** C1, witness: a block that inserts a row and raises [ValueError] inside
    the transaction scope of a fresh object. *)
Lemma transaction_rollback_then_reraise_witness :
  transaction users_engine (failing_block (OtherException "ValueError" "boom"))
              (fresh_state [])
  = (Raise (OtherException "ValueError" "boom"),
     add_log ERROR ("事务回滚: " ++ "boom")
       (set_world_of
          (conn_rollback 0
             (world (failing_block (OtherException "ValueError" "boom") 0
                       (connect users_engine (fresh_state [])).2).2)).2
          (failing_block (OtherException "ValueError" "boom") 0
             (connect users_engine (fresh_state [])).2).2))
  /\ exists hd,
       handles (conn_rollback 0
                  (world (failing_block (OtherException "ValueError" "boom") 0
                            (connect users_engine (fresh_state [])).2).2)).2 !! 0
       = Some hd
       /\ h_tx hd = None.
Proof.
  exact (transaction_rollback_then_reraise users_engine
           (failing_block (OtherException "ValueError" "boom")) (fresh_state []) 0
           (connect users_engine (fresh_state [])).2
           (OtherException "ValueError" "boom") _ _
           eq_refl eq_refl eq_refl eq_refl).
Defined.

(** C1, counterexample: the same block raising [KeyboardInterrupt].  The
    driver's rollback would succeed, yet the scope does not roll back: the
    exception leaves with the inserted row still pending and nothing
    logged. *)
Lemma transaction_no_rollback_on_KeyboardInterrupt :
  ~ rolls_back_then_reraises users_engine
      (failing_block (BaseOnly "KeyboardInterrupt")) (fresh_state []).
Proof.
  intros H. specialize (H 0 _ _ _ _ eq_refl eq_refl eq_refl).
  apply (f_equal (fun r => length (log r.2))) in H. vm_compute in H. discriminate H.
Qed.

(** C2, witness: a handle on which the next driver call fails with a disk
    error: [commit] raises it, [close] returns. *)
Lemma driver_errors_reraised_except_close_witness :
  commit (connected_state [Some "disk I/O error"])
  = (Raise (SqliteError "disk I/O error"),
     add_log ERROR ("提交事务失败: " ++ "disk I/O error")
       (set_world_of (conn_commit 0 (world (connected_state [Some "disk I/O error"]))).2
                     (connected_state [Some "disk I/O error"])))
  /\ close (connected_state [Some "disk I/O error"])
     = (Return (),
        add_log ERROR ("关闭数据库连接失败: " ++ "disk I/O error")
          (set_world_of (conn_close 0 (world (connected_state [Some "disk I/O error"]))).2
                        (connected_state [Some "disk I/O error"]))).
Proof.
  destruct (driver_errors_reraised_except_close users_engine
              (connected_state [Some "disk I/O error"]) "disk I/O error")
    as (_ & _ & _ & Hcommit & _ & Hclose).
  split.
  - exact (Hcommit 0 _ eq_refl eq_refl).
  - exact (proj1 (Hclose 0 _ eq_refl eq_refl)).
Defined.

(** C2, counterexample: [close()] does not re-raise the driver's error. *)
Lemma close_swallows_driver_error :
  ~ close_reraises (connected_state [Some "disk I/O error"]).
Proof.
  intros H. destruct (H 0 "disk I/O error" _ eq_refl eq_refl) as (s' & E).
  vm_compute in E. discriminate E.
Qed.

(** C4, witness: leaving [with db:] through an exception while the driver's
    rollback fails. *)
Lemma exit_rollback_failure_skips_close_witness :
  __exit__ (Some (OtherException "ValueError" "boom"))
           (connected_state [Some "disk I/O error"])
  = (Raise (SqliteError "disk I/O error"),
     add_log ERROR ("回滚事务失败: " ++ "disk I/O error")
       (set_world_of (conn_rollback 0 (world (connected_state [Some "disk I/O error"]))).2
                     (connected_state [Some "disk I/O error"])))
  /\ connection (__exit__ (Some (OtherException "ValueError" "boom"))
                          (connected_state [Some "disk I/O error"])).2 = Some 0
  /\ handles (world (__exit__ (Some (OtherException "ValueError" "boom"))
                              (connected_state [Some "disk I/O error"])).2) !! 0
     = Some (mkHandle "example.db" (QArith_base.Qmake 30 1) false true false None).
Proof.
  exact (exit_rollback_failure_skips_close (connected_state [Some "disk I/O error"]) 0
           (mkHandle "example.db" (QArith_base.Qmake 30 1) false true false None)
           (OtherException "ValueError" "boom") "disk I/O error" _
           eq_refl eq_refl eq_refl eq_refl).
Defined.

(** C5, witness: [close()] on a never-connected object and [close();
    close()] on a connected one. *)
Lemma close_idempotent_witness :
  close (fresh_state []) = (Return (), fresh_state [])
  /\ connection (close (connected_state [])).2 = None
  /\ (close ;; close)%py (connected_state []) = close (connected_state []).
Proof.
  split; [|split].
  - exact (proj1 (close_idempotent (fresh_state [])) eq_refl).
  - exact (proj2 (proj1 (proj2 (close_idempotent (connected_state []))) 0 _ eq_refl eq_refl)).
  - apply (proj2 (proj2 (close_idempotent (connected_state [])))).
    right. exists 0. eexists. split; reflexivity.
Defined.

(** C6, witness: [connect()] on a connected object reuses handle [0]; on a
    fresh object it opens handle [0] with the object's settings. *)
Lemma connect_reuses_or_reopens_witness :
  (connect users_engine (connected_state [])
   = (Return 0,
      set_world_of
        (conn_execute users_engine 0 "SELECT 1" (PTuple [])
           (world (connected_state []))).2 (connected_state []))
   /\ length (handles (conn_execute users_engine 0 "SELECT 1" (PTuple [])
                         (world (connected_state []))).2) = 1)
  /\ exists s',
       connect users_engine (fresh_state []) = (Return 0, s')
       /\ connection s' = Some 0
       /\ 0 = length (handles (world (fresh_state [])))
       /\ handles (world s') !! 0
          = Some (mkHandle "example.db" (QArith_base.Qmake 30 1) false true false None).
Proof.
  split.
  - exact (proj1 (connect_reuses_or_reopens users_engine (connected_state []))
             0 _ _ eq_refl eq_refl).
  - exact (proj2 (connect_reuses_or_reopens users_engine (fresh_state []))
             (fresh_state []) (or_introl (conj eq_refl eq_refl))).
Defined.





(** The exception the two calls above raise, and the largest integer that
    still binds. *)
Example select_overflow_boundary :
  (select (constant_engine []) "users" "*" (Some "id = ?")
          (Some (PTuple [VInt (2 ^ 63)])) None None None (fresh_state [])).1
  = Raise overflow_error
  /\ (select (constant_engine []) "users" "*" (Some "id = ?")
             (Some (PTuple [VInt (2 ^ 63 - 1)])) None None None (fresh_state [])).1
     = Return []
  /\ (select (constant_engine []) "users" "*" (Some "id = ?")
             (Some (PTuple [VInt (- 2 ^ 63)])) None None None (fresh_state [])).1
     = Return []
  /\ (update (constant_engine []) "users" [("age", VInt (2 ^ 63))]
             "name = ?" (Some [VText "A"]) (fresh_state [])).1
     = Raise overflow_error.
Proof. repeat split; vm_compute; reflexivity. Qed.

(** A statement the engine rejects raises [sqlite3.Error] before any value
    is bound: [select] on a missing table answers the empty list even with
    a parameter that could not be bound. *)
Example select_missing_table_overflow :
  (select users_engine "missing" "*" (Some "id = ?")
          (Some (PTuple [VInt (2 ^ 63)])) None None None (fresh_state [])).1
  = Return [].
Proof. vm_compute. reflexivity. Qed.

(** A batch whose second record holds [2 ** 63]: [insert_many] raises
    [OverflowError]; the scope has rolled the first row back, and [count]
    is what it was. *)
Example insert_many_overflow :
  (insert_many users_engine "users"
     [[("id", VInt 2); ("name", VText "B")]; [("id", VInt (2 ^ 63)); ("name", VText "C")]]
     false (fresh_state [])).1 = Raise overflow_error
  /\ count_seen users_engine "users"
       (insert_many users_engine "users"
          [[("id", VInt 2); ("name", VText "B")];
           [("id", VInt (2 ^ 63)); ("name", VText "C")]]
          false (fresh_state [])).2 = Return (VInt 1).
Proof. split; vm_compute; reflexivity. Qed.

(** Which statements open a transaction: the keyword counts after leading
    white space and comments, in any case. *)
Example is_dml_leading_text :
  is_dml (String (Ascii.ascii_of_nat 10)
            (String (Ascii.ascii_of_nat 9) "insert into users values (1)")) = true
  /\ is_dml "  /* note */ DELETE FROM users" = true
  /\ is_dml ("-- note" ++ String (Ascii.ascii_of_nat 10) "UPDATE users SET id = 1") = true
  /\ is_dml "-- UPDATE users SET id = 1" = false
  /\ is_dml "SELECT 1" = false
  /\ is_dml "CREATE TABLE users (id)" = false
  /\ is_dml "" = false.
Proof. repeat split; vm_compute; reflexivity. Qed.

(** The two outcomes of [insert_many] on [sample_db], evaluated. *)
Example insert_many_two_rows :
  (insert_many users_engine "users"
     [[("id", VInt 2); ("name", VText "B")]; [("id", VInt 3); ("name", VText "C")]]
     false (fresh_state [])).1 = Return true
  /\ count_seen users_engine "users"
       (insert_many users_engine "users"
          [[("id", VInt 2); ("name", VText "B")]; [("id", VInt 3); ("name", VText "C")]]
          false (fresh_state [])).2 = Return (VInt 3).
Proof. split; vm_compute; reflexivity. Qed.

Example insert_many_conflict :
  (insert_many users_engine "users"
     [[("id", VInt 2); ("name", VText "B")]; [("id", VInt 1); ("name", VText "C")]]
     false (fresh_state [])).1 = Return false
  /\ count_seen users_engine "users"
       (insert_many users_engine "users"
          [[("id", VInt 2); ("name", VText "B")]; [("id", VInt 1); ("name", VText "C")]]
          false (fresh_state [])).2 = Return (VInt 1).
Proof. split; vm_compute; reflexivity. Qed.

(** A rollback that fails leaves the first row of the batch visible:
    [insert_many] returns [False] and [count] has grown. *)
Example insert_many_failed_rollback :
  (insert_many users_engine "users"
     [[("id", VInt 2); ("name", VText "B")]; [("id", VInt 1); ("name", VText "C")]]
     false (fresh_state [None; None; None; None; Some "disk I/O error"])).1 = Return false
  /\ count_seen users_engine "users"
       (insert_many users_engine "users"
          [[("id", VInt 2); ("name", VText "B")]; [("id", VInt 1); ("name", VText "C")]]
          false (fresh_state [None; None; None; None; Some "disk I/O error"])).2
     = Return (VInt 2).
Proof. split; vm_compute; reflexivity. Qed.

(** Uncommitted rows on the handle are lost when a failing [insert_many]
    rolls back: [count] is [2] after the pending INSERT and [1] after the
    failed batch. *)
Example insert_many_discards_pending :
  count_seen users_engine "users" (failing_block (SqliteError "") 0 (fresh_state [])).2
  = Return (VInt 2)
  /\ (insert_many users_engine "users" [[("id", VInt 1); ("name", VText "C")]] false
        (failing_block (SqliteError "") 0 (fresh_state [])).2).1 = Return false
  /\ count_seen users_engine "users"
       (insert_many users_engine "users" [[("id", VInt 1); ("name", VText "C")]] false
          (failing_block (SqliteError "") 0 (fresh_state [])).2).2
     = Return (VInt 1).
Proof. repeat split; vm_compute; reflexivity. Qed.

(** [with db: raise ValueError("boom")] while the driver fails the
    rollback: the rollback error leaves the [with] statement, and handle
    [0] is still cached and open. *)
Example with_db_leaks_handle :
  (with_db users_engine (raise (OtherException "ValueError" "boom") : M unit)
           (fresh_state [None; Some "disk I/O error"])).1
  = Raise (SqliteError "disk I/O error")
  /\ connection (with_db users_engine (raise (OtherException "ValueError" "boom") : M unit)
                         (fresh_state [None; Some "disk I/O error"])).2 = Some 0
  /\ h_closed <$> handles (world (with_db users_engine
                                    (raise (OtherException "ValueError" "boom") : M unit)
                                    (fresh_state [None; Some "disk I/O error"])).2) !! 0
     = Some false.
Proof. repeat split; vm_compute; reflexivity. Qed.

(** The same statement when the rollback succeeds: the original exception
    leaves, the handle is closed and no longer cached. *)
Example with_db_closes_handle :
  (with_db users_engine (raise (OtherException "ValueError" "boom") : M unit)
           (fresh_state [])).1
  = Raise (OtherException "ValueError" "boom")
  /\ connection (with_db users_engine (raise (OtherException "ValueError" "boom") : M unit)
                         (fresh_state [])).2 = None
  /\ h_closed <$> handles (world (with_db users_engine
                                    (raise (OtherException "ValueError" "boom") : M unit)
                                    (fresh_state [])).2) !! 0
     = Some true.
Proof. repeat split; vm_compute; reflexivity. Qed.

(** [select] answers the empty list both when the query matches no row and
    when the driver rejects the statement; [select_one] picks the first of
    the rows the driver returns. *)
Example select_empty_or_failed :
  (select (constant_engine []) "users" "*" None None None None None (fresh_state [])).1
  = Return []
  /\ (select users_engine "missing" "*" None None None None None (fresh_state [])).1
     = Return [].
Proof. split; vm_compute; reflexivity. Qed.

Example select_one_two_rows :
  (select_one (constant_engine [[("id", VInt 1)]; [("id", VInt 2)]]) "users" "*"
              (Some "id > ?") (Some (PTuple [VInt 0])) (fresh_state [])).1
  = Return (Some [("id", VInt 1)])
  /\ last (history (world
        (select_one (constant_engine [[("id", VInt 1)]; [("id", VInt 2)]]) "users" "*"
                    (Some "id > ?") (Some (PTuple [VInt 0])) (fresh_state [])).2))
     = Some (0, "SELECT * FROM users WHERE id > ? LIMIT 1", PTuple [VInt 0]).
Proof. split; vm_compute; reflexivity. Qed.

(** [update("users", {"age": 21}, "name = ?", ("A",))] hands the driver the
    record's value first, then the condition's. *)
Example update_parameter_order :
  last (history (world
     (update (constant_engine []) "users" [("age", VInt 21)] "name = ?"
             (Some [VText "A"]) (fresh_state [])).2))
  = Some (0, "UPDATE users SET age = ? WHERE name = ?", PTuple [VInt 21; VText "A"]).
Proof. vm_compute. reflexivity. Qed.

(** * The remaining table operations of [sql.py]

    [create_table], [drop_table], [insert], [delete], [exists],
    [get_table_info], [get_tables] and [vacuum] (lines 170-245 and 370-501),
    embedded as the operations above are.  [backup], [get_db_size],
    [export_to_json] and [import_from_json] need a second database file, the
    file system and a JSON codec; they are not modelled. *)

Section More_operations.

Variable engine : Engine.

(** [columns] is the [Dict[str, str]] of column definitions, in order. *)
Definition create_table_sql (table_name : string) (columns : list (string * string))
    (if_not_exists : bool) : string :=
  let columns_def := join ", " ((fun c => c.1 ++ " " ++ c.2) <$> columns) in
  let if_not_exists_clause := if if_not_exists then "IF NOT EXISTS " else "" in
  "CREATE TABLE " ++ if_not_exists_clause ++ table_name ++ " (" ++ columns_def ++ ")".

Definition create_table (table_name : string) (columns : list (string * string))
    (if_not_exists : bool) : M bool :=
  try_except
    (let sql := create_table_sql table_name columns if_not_exists in
     execute engine sql None ;;
     commit ;;
     logger INFO ("表 " ++ table_name ++ " 创建成功") ;;
     ret true)
    is_sqlite_Error
    (fun e => logger ERROR ("创建表失败: " ++ str_exn e) ;; ret false).

Definition drop_table_sql (table_name : string) (if_exists : bool) : string :=
  let if_exists_clause := if if_exists then "IF EXISTS " else "" in
  "DROP TABLE " ++ if_exists_clause ++ table_name.

Definition drop_table (table_name : string) (if_exists : bool) : M bool :=
  try_except
    (let sql := drop_table_sql table_name if_exists in
     execute engine sql None ;;
     commit ;;
     logger INFO ("表 " ++ table_name ++ " 删除成功") ;;
     ret true)
    is_sqlite_Error
    (fun e => logger ERROR ("删除表失败: " ++ str_exn e) ;; ret false).

(** [f"{row_id}"] for an [Optional[int]]. *)
Definition str_rowid (r : option Z) : string :=
  match r with
  | Some z => pretty z
  | None => "None"
  end.

(** [insert] returns [cursor.lastrowid], or [None] after a driver error. *)
Definition insert (table_name : string) (data : Dict) (or_replace : bool)
    : M (option Z) :=
  try_except
    (let sql := insert_sql or_replace table_name data in
     cursor <- execute engine sql (Some (PTuple (values data))) ;;
     commit ;;
     let row_id := lastrowid cursor in
     logger INFO ("插入记录成功, rowid: " ++ str_rowid row_id) ;;
     ret row_id)
    is_sqlite_Error
    (fun e => logger ERROR ("插入记录失败: " ++ str_exn e) ;; ret None).

Definition delete_sql (table_name where_ : string) : string :=
  "DELETE FROM " ++ table_name ++ " WHERE " ++ where_.

Definition delete (table_name where_ : string) (params : option Params) : M Z :=
  try_except
    (let sql := delete_sql table_name where_ in
     cursor <- execute engine sql params ;;
     commit ;;
     let affected_rows := rowcount cursor in
     logger INFO ("删除 " ++ pretty affected_rows ++ " 条记录") ;;
     ret affected_rows)
    is_sqlite_Error
    (fun e => logger ERROR ("删除记录失败: " ++ str_exn e) ;; ret 0%Z).

(** [self.count(table_name, where, params) > 0]: an integer is compared; any
    other value makes the comparison raise [TypeError]. *)
Definition exists_ (table_name where_ : string) (params : option Params) : M bool :=
  n <- count engine table_name (Some where_) params ;;
  match n with
  | VInt z => ret (0 <? z)%Z
  | VNull =>
      raise (OtherException "TypeError"
               "'>' not supported between instances of 'NoneType' and 'int'")
  | VText _ =>
      raise (OtherException "TypeError"
               "'>' not supported between instances of 'str' and 'int'")
  end.

Definition get_table_info (table_name : string) : M (list Row) :=
  try_except
    (cursor <- execute engine ("PRAGMA table_info(" ++ table_name ++ ")") None ;;
     ret (fetchall cursor))
    is_sqlite_Error
    (fun e => logger ERROR ("获取表结构失败: " ++ str_exn e) ;; ret []).

(** [[row['name'] for row in rows]]: a row without that column raises
    [IndexError]. *)
Fixpoint names_of (rows : list Row) : M (list value) :=
  match rows with
  | [] => ret []
  | row :: rest =>
      match row_lookup "name" row with
      | Some v => vs <- names_of rest ;; ret (v :: vs)
      | None => raise (OtherException "IndexError" "No item with that key")
      end
  end.

Definition get_tables : M (list value) :=
  try_except
    (cursor <- execute engine
       "SELECT name FROM sqlite_master WHERE type='table' AND name NOT LIKE 'sqlite_%'"
       None ;;
     names_of (fetchall cursor))
    is_sqlite_Error
    (fun e => logger ERROR ("获取表列表失败: " ++ str_exn e) ;; ret []).

Definition vacuum : M bool :=
  try_except
    (execute engine "VACUUM" None ;;
     logger INFO "数据库优化完成" ;;
     ret true)
    is_sqlite_Error
    (fun e => logger ERROR ("数据库优化失败: " ++ str_exn e) ;; ret false).

End More_operations.

(** ** Properties of the transaction scope, the lifecycle and the soft-fail tier *)

Section More_properties.

Variable engine : Engine.

Create HintDb soft_fail.
#[local] Hint Resolve only_sqlite_ret only_sqlite_logger only_sqlite_get_connection
  only_sqlite_set_connection only_sqlite_driver only_sqlite_bind only_sqlite_try
  only_sqlite_if only_sqlite_raise only_sqlite_execute only_sqlite_commit
  only_sqlite_rollback only_sqlite_connect only_sqlite_executemany : soft_fail.

(** X1. When the block of [with self.transaction()] returns and the driver
    accepts the commit, the scope returns the block's result after logging,
    and what the handle's transaction held is now the database file: the
    handle has no open transaction left. *)
Theorem transaction_commits_on_success {A} (body : nat -> M A) (s : State)
    (conn : nat) (s1 : State) (a : A) (s2 : State) (w3 : World) :
  connect engine s = (Return conn, s1) ->
  body conn s1 = (Return a, s2) ->
  conn_commit conn (world s2) = (DOk (), w3) ->
  transaction engine body s
  = (Return a, add_log INFO "事务提交成功" (set_world_of w3 s2))
  /\ exists hd,
       handles (world s2) !! conn = Some hd
       /\ disk w3 = view hd (world s2)
       /\ handles w3 !! conn = Some (with_tx hd None).
Proof.
  intros Hc Hb Hm. split.
  - rewrite transaction_run, Hc, Hb, Hm. reflexivity.
  - apply conn_commit_ok in Hm as (hd & Hl & _ & Hs & Hd).
    exists hd. split; [exact Hl|]. split; [exact Hd|].
    rewrite Hs. apply list_lookup_insert_eq. by eapply lookup_lt_Some.
Qed.

(** X2. When the block returns but the driver refuses the commit, the scope
    rolls back and raises the commit's error: the block's result is lost,
    the file is as the block found it, and the handle has no open
    transaction (provided the rollback succeeds). *)
Theorem transaction_commit_failure_rolls_back {A} (body : nat -> M A) (s : State)
    (conn : nat) (s1 : State) (a : A) (s2 : State) (m : string) (w3 w4 : World) :
  connect engine s = (Return conn, s1) ->
  body conn s1 = (Return a, s2) ->
  conn_commit conn (world s2) = (DErr m, w3) ->
  conn_rollback conn w3 = (DOk (), w4) ->
  transaction engine body s
  = (Raise (SqliteError m), add_log ERROR ("事务回滚: " ++ m) (set_world_of w4 s2))
  /\ disk w4 = disk (world s2)
  /\ exists hd, handles w4 !! conn = Some hd /\ h_tx hd = None.
Proof.
  intros Hc Hb Hm Hr. split; [|split].
  - rewrite transaction_run, Hc, Hb, Hm. unfold rollback_handler. cbn. rewrite Hr. reflexivity.
  - apply conn_commit_err in Hm as (_ & D3). apply conn_rollback_disk in Hr. congruence.
  - apply conn_rollback_ok in Hr as (hd & Hl & _ & -> & _).
    exists (with_tx hd None). split; [|reflexivity].
    apply list_lookup_insert_eq. by eapply lookup_lt_Some.
Qed.

(** X3. When the block raises an [Exception] and the rollback itself fails,
    the scope raises the rollback's error in place of the block's
    exception, and logs nothing of its own. *)
Theorem transaction_rollback_failure_supersedes {A} (body : nat -> M A) (s : State)
    (conn : nat) (s1 : State) (e : exn) (s2 : State) (m : string) (w3 : World) :
  connect engine s = (Return conn, s1) ->
  body conn s1 = (Raise e, s2) ->
  is_Exception e = true ->
  conn_rollback conn (world s2) = (DErr m, w3) ->
  transaction engine body s = (@Raise A (SqliteError m), set_world_of w3 s2)
  /\ log (transaction engine body s).2 = log s2
  /\ handles w3 = handles (world s2).
Proof.
  intros Hc Hb He Hr.
  assert (transaction engine body s = (@Raise A (SqliteError m), set_world_of w3 s2)) as E.
  { rewrite transaction_run, Hc, Hb, He. unfold rollback_handler. rewrite Hr. reflexivity. }
  rewrite E. split; [reflexivity|]. split; [reflexivity|].
  exact (conn_rollback_err _ _ _ _ Hr).
Qed.

Lemma conn_execute_ok_open h sql p w c w' :
  conn_execute engine h sql p w = (DOk c, w') ->
  exists hd, handles w' !! h = Some hd /\ h_closed hd = false.
Proof.
  unfold conn_execute, on_open_handle, run_statement. cbn.
  destruct (handles w !! h) as [hd|] eqn:Hl; [|intros; simplify_eq].
  destruct (h_closed hd) eqn:Ho; [intros; simplify_eq|].
  destruct (pop_fault _) as [[m|] w1] eqn:F; apply pop_fault_frame in F as (F1 & _ & _);
    cbn in F1; [intros; simplify_eq|].
  destruct (engine sql p _) as [m|[db' cur]]; [intros; simplify_eq|].
  destruct (negb (bindable p)); [destruct (is_dml sql); intros; simplify_eq|].
  destruct (_ || _); intros; simplify_eq; cbn.
  - exists (with_tx hd (Some db')). split; [|destruct hd; exact Ho].
    rewrite F1. apply list_lookup_insert_eq. by eapply lookup_lt_Some.
  - exists hd. rewrite F1. auto.
Qed.

(** X4. Whatever [connect()] returns is the cached handle, and it is open:
    [connect] never hands out a closed handle. *)
Theorem connect_returns_open_cached_handle (s : State) (h : nat) (s' : State) :
  connect engine s = (Return h, s') ->
  connection s' = Some h
  /\ exists hd, handles (world s') !! h = Some hd /\ h_closed hd = false.
Proof.
  intros H.
  assert (forall s0, needs_open engine s s0 ->
            connection s' = Some h
            /\ exists hd, handles (world s') !! h = Some hd /\ h_closed hd = false)
    as Hopen.
  { intros s0 Hn. rewrite (connect_open_run engine s s0 Hn) in H.
    destruct (open_connection s0) as [r0 s2] eqn:E.
    apply open_connection_frame in E as (_ & [((e & ->) & _)|(-> & Hc & Hh)]);
      [discriminate H|]. injection H as <- <-. split; [exact Hc|].
    exists (fresh_handle s0). split; [|reflexivity].
    rewrite Hh. apply list_lookup_middle. reflexivity. }
  destruct (connection s) as [h0|] eqn:Hc.
  - pose proof (conn_execute_no_overflow engine h0 "SELECT 1" (PTuple []) eq_refl (world s))
      as Hx.
    destruct (conn_execute engine h0 "SELECT 1" (PTuple []) (world s)) as [[cur|m|] w] eqn:Hp;
      [| |by destruct Hx].
    + rewrite (connect_live_run engine s h0 cur w Hc Hp) in H. injection H as <- <-.
      split; [exact Hc|]. exact (conn_execute_ok_open _ _ _ _ _ _ Hp).
    + apply (Hopen (set_world_of w s)). right. eauto 6.
  - apply (Hopen s). left. auto.
Qed.

Lemma execute_history (sql : string) (params : option Params) (s : State) :
  history (world (execute engine sql params s).2) =
  match connect engine s with
  | (Return conn, _) =>
      (history (world s) ++ probe_of s ++ [(conn, sql, bound_params params)])%list
  | (Raise _, _) => (history (world s) ++ probe_of s)%list
  end.
Proof.
  rewrite execute_run. pose proof (connect_history engine s) as Hh.
  destruct (connect engine s) as [[conn|e] s1]; cbn in Hh; [|exact Hh].
  destruct (conn_execute engine conn sql (bound_params params) (world s1)) as [[c|m|] w] eqn:E;
    apply conn_execute_history in E; cbn; rewrite E, Hh, <- app_assoc; reflexivity.
Qed.

(** X5. The statements [execute] hands to the driver: the liveness probe
    [SELECT 1] when a handle was cached, then, if [connect] succeeded, the
    one statement it was given, bound to its parameters (to nothing when
    [params] is falsy).  Nothing else is sent, whether the call returns or
    raises. *)
Theorem execute_sends_probe_then_statement (sql : string) (params : option Params)
    (s : State) :
  history (world (execute engine sql params s).2) =
  match connect engine s with
  | (Return conn, _) =>
      (history (world s) ++ probe_of s ++ [(conn, sql, bound_params params)])%list
  | (Raise _, _) => (history (world s) ++ probe_of s)%list
  end.
Proof. exact (execute_history sql params s). Qed.

Lemma conn_close_disk h w r w' :
  conn_close h w = (r, w') -> disk w' = disk w.
Proof.
  unfold conn_close. destruct (handles w !! h) as [hd|]; [|intros; simplify_eq; auto].
  destruct (pop_fault w) as [[m|] w1] eqn:F; apply pop_fault_frame in F as (_ & F2 & _);
    intros; simplify_eq; auto.
Qed.

Lemma close_returns : never_raises close.
Proof.
  intros s. destruct (connection s) as [h|] eqn:Hc.
  - rewrite (close_run s h Hc). pose proof (conn_close_no_overflow h (world s)) as Hx.
    destruct (conn_close h (world s)) as [[[]|m|] w]; eauto. by destruct Hx.
  - rewrite (close_none_run s Hc). eauto.
Qed.

(** X6. [close()] never raises; hence leaving [with db:] without an
    exception never raises, and leaving it with one can only raise a
    [sqlite3.Error] (that of the rollback). *)
Theorem close_never_raises :
  never_raises close
  /\ never_raises (__exit__ None)
  /\ forall e, only_sqlite (__exit__ (Some e)).
Proof.
  split; [exact close_returns|]. split.
  - intros s. rewrite exit_run. apply close_returns.
  - intros e s e' s' H. rewrite exit_run in H.
    destruct (rollback s) as [[[]|e0] s1] eqn:R.
    + destruct (close_returns s1) as (u & s2 & E). congruence.
    + injection H as <- <-. exact (only_sqlite_rollback _ _ _ R).
Qed.

Lemma close_disk (s : State) : disk (world (close s).2) = disk (world s).
Proof.
  destruct (connection s) as [h|] eqn:Hc.
  - rewrite (close_run s h Hc).
    destruct (conn_close h (world s)) as [[[]|m|] w] eqn:E; apply conn_close_disk in E; exact E.
  - rewrite (close_none_run s Hc). reflexivity.
Qed.

Lemma rollback_disk (s : State) : disk (world (rollback s).2) = disk (world s).
Proof.
  destruct (connection s) as [h|] eqn:Hc.
  - rewrite (rollback_run s h Hc).
    destruct (conn_rollback h (world s)) as [[[]|m|] w] eqn:E;
      apply conn_rollback_disk in E; exact E.
  - unfold rollback, bind, get_connection. rewrite Hc. reflexivity.
Qed.

Lemma exit_disk (exc : option exn) (s : State) :
  disk (world (__exit__ exc s).2) = disk (world s).
Proof.
  rewrite exit_run. destruct exc as [e|]; [|apply close_disk].
  pose proof (rollback_disk s) as R.
  destruct (rollback s) as [[[]|e0] s1]; cbn in R; [|exact R].
  rewrite close_disk. exact R.
Qed.

(** X7. Leaving [with db:] never commits.  The database file after the
    [with] statement is the file as the block left it, whether the block
    returned or raised; uncommitted statements of the block are not
    written. *)
Theorem with_db_never_commits {A} (body : M A) (s : State) (h : nat) (s1 : State) :
  connect engine s = (Return h, s1) ->
  disk (world (with_db engine body s).2) = disk (world (body s1).2).
Proof.
  intros Hc. unfold with_db, __enter__, bind at 1. unfold bind at 1. rewrite Hc. cbn.
  destruct (body s1) as [[a|e] s2]; cbn.
  - unfold bind. pose proof (exit_disk None s2) as D.
    destruct (__exit__ None s2) as [[[]|e'] s3]; exact D.
  - unfold bind. pose proof (exit_disk (Some e) s2) as D.
    destruct (__exit__ (Some e) s2) as [[[]|e'] s3]; exact D.
Qed.

Lemma soft_fail_returns {A} (m : M A) (msg : exn -> string) (fallback : A) :
  only_sqlite m ->
  never_raises (try_except m is_sqlite_Error
                  (fun e => logger ERROR (msg e) ;; ret fallback)).
Proof.
  intros Hm. apply soft_fail_never_raises; [exact Hm|].
  intros e s. cbn. eauto.
Qed.

Lemma bound_params_tuple (vs : list value) :
  bound_params (Some (PTuple vs)) = PTuple vs.
Proof. destruct vs; reflexivity. Qed.


(** X9. [insert_many] reads the column names from the first record only:
    two batches whose records carry the same values in the same order
    behave identically, whatever the keys of the later records are. *)
Theorem insert_many_ignores_later_keys (table_name : string) (first : Dict)
    (rest rest' : list Dict) (or_replace : bool) (s : State) :
  values <$> rest = values <$> rest' ->
  insert_many engine table_name (first :: rest) or_replace s
  = insert_many engine table_name (first :: rest') or_replace s.
Proof.
  intros Hv.
  assert ((fun data => PTuple (values data)) <$> rest
          = (fun data => PTuple (values data)) <$> rest') as Hp.
  { change (fun data : Dict => PTuple (values data)) with (PTuple ∘ values).
    rewrite !list_fmap_compose, Hv. reflexivity. }
  assert (length rest = length rest') as Hl.
  { rewrite <- (length_fmap values rest), Hv, length_fmap. reflexivity. }
  rewrite !insert_many_run, !fmap_cons, Hp. cbn [length]. rewrite Hl. reflexivity.
Qed.

(** *** [insert], [exists] and [count] on an engine that stores rows *)

Section Insert_assumptions.

(** The assumptions on the engine are those made for [insert_many]: the
    probe changes nothing, [COUNT] counts, and the generated plain INSERT,
    run with values that can be bound, stores one row as [insert_row]
    describes. *)
Variable t : string.
Variable data : Dict.
Hypothesis engine_probe :
  forall db, exists c, engine "SELECT 1" (PTuple []) db = inr (db, c).
Hypothesis engine_count :
  forall db, engine (count_sql t None) (PTuple []) db = count_rows t db.
Hypothesis engine_insert :
  forall vs db,
    bindable (PTuple vs) = true ->
    exists rowid,
      agrees (engine (insert_sql false t data) (PTuple vs) db)
             (insert_row false t (keys data) vs rowid db).

Lemma insert_row_lastrowid o cols vs rowid db db' c :
  insert_row o t cols vs rowid db = inr (db', c) -> lastrowid c = Some rowid.
Proof.
  unfold insert_row. destruct (db !! t) as [tb|]; [|discriminate].
  destruct (negb (forallb _ cols)); [discriminate|].
  destruct (negb (bool_decide _)); [discriminate|].
  destruct (existsb _ (t_rows tb)); [destruct o; [|discriminate]|];
    intros H; simplify_eq; cbn; eauto.
Qed.

(** The INSERT of [insert], run by [execute] on an object without
    uncommitted changes: it raises and the file is untouched, or the cached
    handle's transaction now holds one more row of [t] than the file.  What
    it raises is a [sqlite3.Error], or the driver's [OverflowError] when a
    value of the record cannot be bound. *)
Lemma insert_execute_effect (s : State) r s1 :
  no_open_tx s ->
  execute engine (insert_sql false t data) (Some (PTuple (values data))) s = (r, s1) ->
  disk (world s1) = disk (world s)
  /\ match r with
     | Return cur =>
         (exists id, lastrowid cur = Some id)
         /\ exists hb hd db',
              connection s1 = Some hb /\ handles (world s1) !! hb = Some hd
              /\ h_closed hd = false /\ h_tx hd = Some db'
              /\ table_size t db' = (table_size t (disk (world s)) + 1)%Z
     | Raise e =>
         is_sqlite_Error e = true
         \/ (e = overflow_error /\ bindable (PTuple (values data)) = false)
     end.
Proof.
  intros Hn. rewrite execute_run, bound_params_tuple.
  destruct (connect engine s) as [[hb|e] s0] eqn:C.
  2: { intros H. injection H as <- <-.
       split; [|left; exact (only_sqlite_connect _ _ _ _ C)].
       by apply (connect_frame engine engine_probe) in C as (? & _). }
  destruct (connect_clean engine engine_probe s _ _ Hn C) as (D & _ & _ & R).
  destruct (R hb eq_refl) as (Hc & hd & Hl & Ho & Ht).
  unfold conn_execute, on_open_handle. cbn. rewrite Hl, Ho.
  destruct (pop_fault _) as [[m|] w1] eqn:F; apply pop_fault_frame in F as (F1 & F2 & _);
    cbn in F1, F2.
  { intros H. injection H as <- <-. cbn. split; [congruence|by left]. }
  unfold run_statement. rewrite insert_sql_is_dml. cbn.
  destruct (forallb bindable_value (values data)) eqn:B; cbn.
  - destruct (engine_insert (values data) (view hd w1) B) as (rowid & Ha).
    apply agrees_cases in Ha as [(m & m' & -> & _)|([db' c] & -> & E)].
    { intros H. injection H as <- <-. cbn. split; [congruence|by left]. }
    intros H. injection H as <- <-. cbn. split; [congruence|].
    split; [exists rowid; exact (insert_row_lastrowid _ _ _ _ _ _ _ E)|].
    exists hb, (with_tx hd (Some db')), db'. split; [exact Hc|]. split.
    { rewrite F1. apply list_lookup_insert_eq. by eapply lookup_lt_Some. }
    split; [destruct hd; exact Ho|]. split; [reflexivity|].
    apply insert_row_size in E. rewrite E. unfold view. rewrite Ht, F2, D. reflexivity.
  - destruct (engine _ _ (view hd w1)) as [m|[db' c]].
    { intros H. injection H as <- <-. cbn. split; [congruence|by left]. }
    intros H. injection H as <- <-. cbn. split; [congruence|by right].
Qed.

Lemma insert_run (table_name : string) (d : Dict) (or_replace : bool) (s : State) :
  insert engine table_name d or_replace s =
  match execute engine (insert_sql or_replace table_name d) (Some (PTuple (values d))) s with
  | (Return cursor, s1) =>
      match commit s1 with
      | (Return _, s2) =>
          (Return (lastrowid cursor),
           add_log INFO ("插入记录成功, rowid: " ++ str_rowid (lastrowid cursor)) s2)
      | (Raise e, s2) => (Return None, add_log ERROR ("插入记录失败: " ++ str_exn e) s2)
      end
  | (Raise e, s1) =>
      if is_sqlite_Error e
      then (Return None, add_log ERROR ("插入记录失败: " ++ str_exn e) s1)
      else (Raise e, s1)
  end.
Proof.
  unfold insert, try_except, bind.
  destruct (execute engine _ _ s) as [[cursor|e] s1] eqn:Ex.
  - destruct (commit s1) as [[[]|e] s2] eqn:Ec; [reflexivity|].
    rewrite (only_sqlite_commit _ _ _ Ec). reflexivity.
  - destruct (is_sqlite_Error e); reflexivity.
Qed.

(** What a single [insert] does to the file and to what the object reads. *)
Lemma insert_effect (s : State) :
  no_open_tx s ->
  let r := insert engine t data false s in
  ((exists id, r.1 = Return (Some id))
   /\ no_open_tx r.2
   /\ table_size t (disk (world r.2)) = (table_size t (disk (world s)) + 1)%Z)
  \/ (r.1 = Return None /\ disk (world r.2) = disk (world s)
      /\ (forall cur s1 e s2,
            execute engine (insert_sql false t data) (Some (PTuple (values data))) s
              = (Return cur, s1) ->
            commit s1 = (Raise e, s2) ->
            table_size t (visible_db r.2) = (table_size t (disk (world s)) + 1)%Z))
  \/ (r.1 = Raise overflow_error /\ disk (world r.2) = disk (world s)
      /\ bindable (PTuple (values data)) = false).
Proof.
  intros Hn r. subst r. rewrite insert_run.
  destruct (execute engine _ _ s) as [[cur|e] s1] eqn:Ex;
    apply (insert_execute_effect s _ _ Hn) in Ex as (D & Hx).
  2: { destruct Hx as [He|(-> & Hb)].
       - rewrite He. right. left. cbn. split; [reflexivity|]. split; [exact D|].
         intros; discriminate.
       - right. right. cbn. auto. }
  destruct Hx as ((id & Hid) & hb & hd & db' & Hc & Hl & Ho & Ht & Hsz).
  rewrite (commit_run s1 hb Hc).
  pose proof (conn_commit_no_overflow hb (world s1)) as Hx.
  destruct (conn_commit hb (world s1)) as [[[]|m|] w] eqn:Cm; [| |by destruct Hx].
  - left. cbn. apply conn_commit_ok in Cm as (hd0 & Hl0 & _ & Hs & Dw).
    rewrite Hl in Hl0. injection Hl0 as <-.
    split; [rewrite Hid; eauto|]. split.
    + intros h hd1. cbn. rewrite Hc. intros E. injection E as <-.
      rewrite Hs, list_lookup_insert_eq by (by eapply lookup_lt_Some).
      intros E. injection E as <-. reflexivity.
    + rewrite Dw. unfold view. rewrite Ht. exact Hsz.
  - right. left. cbn. apply conn_commit_err in Cm as (Hs & Dw).
    split; [reflexivity|]. split; [congruence|].
    intros cur0 s0 e0 s2 E _. unfold visible_db. cbn. rewrite Hc, Hs, Hl, Ho.
    unfold view. rewrite Ht. exact Hsz.
Qed.



(** X12. The transaction scope does not undo an [insert] made inside it:
    [insert] commits on its own, so when the block fails afterwards the
    scope's rollback finds nothing to roll back and the row stays in the
    database file. *)
Theorem transaction_does_not_undo_insert (s : State) (conn : nat) (s1 : State)
    (id : Z) (e : exn) :
  no_open_tx s ->
  connect engine s = (Return conn, s1) ->
  (insert engine t data false s1).1 = Return (Some id) ->
  let r := transaction engine
             (fun _ => insert engine t data false ;; raise e : M unit) s in
  (exists e', r.1 = Raise e')
  /\ table_size t (disk (world r.2)) = (table_size t (disk (world s)) + 1)%Z.
Proof.
  intros Hn Hc Hi r. subst r.
  destruct (connect_clean engine engine_probe s _ _ Hn Hc) as (D1 & Hn1 & _).
  pose proof (insert_effect s1 Hn1) as H. cbv zeta in H.
  destruct H as [(_ & _ & Hd)|[(Hr & _)|(Hr & _)]]; [|congruence..].
  assert (transaction engine
            (fun _ => insert engine t data false ;; raise e : M unit) s
          = if is_Exception e
            then rollback_handler conn e (insert engine t data false s1).2
            else (Raise e, (insert engine t data false s1).2)) as E.
  { rewrite transaction_run, Hc. unfold bind, raise.
    destruct (insert engine t data false s1) as [ri s2]. cbn in Hi. subst ri. reflexivity. }
  rewrite E. destruct (is_Exception e).
  - unfold rollback_handler.
    destruct (conn_rollback conn (world _)) as [[[]|m|] w] eqn:R;
      apply conn_rollback_disk in R; cbn; (split; [eauto|congruence]).
  - cbn. split; [eauto|congruence].
Qed.

Lemma insert_row_wrong_length o cols vs rowid db :
  length vs <> length cols -> exists m, insert_row o t cols vs rowid db = inl m.
Proof.
  intros Hl. unfold insert_row. destruct (db !! t) as [tb|]; [|eauto].
  destruct (negb (forallb _ cols)); [eauto|].
  rewrite bool_decide_false by exact Hl. cbn. eauto.
Qed.

(** A parameter tuple of the wrong length is never executed. *)
Lemma insert_wrong_length_fails h vs w r w' :
  length vs <> length (keys data) ->
  conn_execute engine h (insert_sql false t data) (PTuple vs) w = (r, w') ->
  forall c, r <> DOk c.
Proof.
  intros Hl. unfold conn_execute, on_open_handle, run_statement. cbn.
  destruct (handles w !! h) as [hd|]; [|intros; simplify_eq; discriminate].
  destruct (h_closed hd); [intros; simplify_eq; discriminate|].
  destruct (pop_fault _) as [[m|] w1]; [intros; simplify_eq; discriminate|].
  destruct (forallb bindable_value vs) eqn:B; cbn.
  - destruct (engine_insert vs (view hd w1) B) as (rowid & Ha).
    destruct (insert_row_wrong_length false (keys data) vs rowid (view hd w1) Hl)
      as (m & Em).
    apply agrees_cases in Ha as [(m1 & m' & -> & _)|(x & _ & E)]; [|congruence].
    intros; simplify_eq; discriminate.
  - destruct (engine _ _ _) as [m|[db' c']]; intros; simplify_eq; discriminate.
Qed.

Lemma run_many_wrong_length h (data_list : list Dict) :
  forall n w r w',
    (exists d, d ∈ data_list /\ length d <> length data) ->
    run_many engine h (insert_sql false t data)
             ((fun d => PTuple (values d)) <$> data_list) n w = (r, w') ->
    forall c, r <> DOk c.
Proof.
  induction data_list as [|d0 rest IH]; intros n w r w' (d & Hin & Hl).
  - by apply elem_of_nil in Hin.
  - cbn. destruct (conn_execute engine h _ (PTuple (values d0)) w) as [[c|m|] w1] eqn:E;
      [|intros; simplify_eq; discriminate..].
    apply elem_of_cons in Hin as [->|Hin].
    + exfalso. apply (insert_wrong_length_fails _ _ _ _ _) with (2 := E) (c := c);
        [|reflexivity].
      unfold values, keys. rewrite !length_fmap. exact Hl.
    + apply IH. eauto.
Qed.


(** X14. [exists] with an empty condition answers whether the table the
    object reads has a row; for a table that does not exist it answers
    [False] rather than failing (no fault interfering). *)
Theorem exists_iff_table_has_rows (s : State) :
  (exists_ engine t "" None (quiet s)).1
  = Return (0 <? table_size t (visible_db s))%Z.
Proof.
  pose proof (count_seen_spec engine t engine_probe engine_count s) as Hc.
  unfold count_seen in Hc. unfold exists_, bind.
  change (count engine t (Some "") None) with (count engine t None None).
  destruct (count engine t None None (quiet s)) as [r s1]. cbn in Hc. subst r. reflexivity.
Qed.

End Insert_assumptions.

(** *** What the soft-fail operations send and return *)

(** The shape shared by [create_table], [drop_table], [insert], [update]
    and [delete]: execute, commit, log, return; any [sqlite3.Error] is
    logged and replaced by the fallback. *)
Definition execute_commit {A} (sql : string) (params : option Params)
    (result : Cursor -> A) (ok_msg : Cursor -> string) (err_msg : exn -> string)
    (fallback : A) : M A :=
  try_except
    (cursor <- execute engine sql params ;;
     commit ;;
     logger INFO (ok_msg cursor) ;;
     ret (result cursor))
    is_sqlite_Error
    (fun e => logger ERROR (err_msg e) ;; ret fallback).

Lemma execute_commit_run {A} sql params (result : Cursor -> A) ok_msg err_msg fallback s :
  execute_commit sql params result ok_msg err_msg fallback s =
  match execute engine sql params s with
  | (Return cursor, s1) =>
      match commit s1 with
      | (Return _, s2) => (Return (result cursor), add_log INFO (ok_msg cursor) s2)
      | (Raise e, s2) => (Return fallback, add_log ERROR (err_msg e) s2)
      end
  | (Raise e, s1) =>
      if is_sqlite_Error e
      then (Return fallback, add_log ERROR (err_msg e) s1)
      else (Raise e, s1)
  end.
Proof.
  unfold execute_commit, try_except, bind.
  destruct (execute engine sql params s) as [[cursor|e] s1] eqn:Ex.
  - destruct (commit s1) as [[[]|e] s2] eqn:Ec; [reflexivity|].
    rewrite (only_sqlite_commit _ _ _ Ec). reflexivity.
  - destruct (is_sqlite_Error e); reflexivity.
Qed.

Lemma execute_commit_history {A} sql params (result : Cursor -> A) ok_msg err_msg fallback s :
  history (world (execute_commit sql params result ok_msg err_msg fallback s).2) =
  match connect engine s with
  | (Return conn, _) =>
      (history (world s) ++ probe_of s ++ [(conn, sql, bound_params params)])%list
  | (Raise _, _) => (history (world s) ++ probe_of s)%list
  end.
Proof.
  rewrite execute_commit_run, <- execute_history.
  destruct (execute engine sql params s) as [[cursor|e] s1].
  - pose proof (commit_history s1) as Hc.
    destruct (commit s1) as [[[]|e] s2]; exact Hc.
  - destruct (is_sqlite_Error e); reflexivity.
Qed.

(** A statement without parameters: whatever [execute] raises is caught. *)
Lemma execute_commit_unbound {A} sql (result : Cursor -> A) ok_msg err_msg fallback s :
  (execute_commit sql None result ok_msg err_msg fallback s).1 =
  match execute engine sql None s with
  | (Return cursor, s1) =>
      match commit s1 with
      | (Return _, _) => Return (result cursor)
      | (Raise _, _) => Return fallback
      end
  | (Raise _, _) => Return fallback
  end.
Proof.
  rewrite execute_commit_run.
  destruct (execute engine sql None s) as [[c|e] s1] eqn:Ex.
  - destruct (commit s1) as [[[]|e] s2]; reflexivity.
  - rewrite (only_sqlite_execute engine sql None eq_refl _ _ _ Ex). reflexivity.
Qed.




End More_properties.

(** ** The further properties at concrete inputs *)

(** A block that inserts one row through [execute] and returns. *)
Definition inserting_block : nat -> M Cursor := fun _ =>
  execute users_engine "INSERT INTO users (id, name) VALUES (?, ?)"
          (Some (PTuple [VInt 2; VText "B"])).

Definition sample_record : Dict := [("id", VInt 2); ("name", VText "B")].

Lemma users_engine_probe :
  forall db, exists c, users_engine "SELECT 1" (PTuple []) db = inr (db, c).
Proof. intros db. eexists. reflexivity. Defined.

Lemma users_engine_count :
  forall db, users_engine (count_sql "users" None) (PTuple []) db = count_rows "users" db.
Proof. intros db. reflexivity. Defined.

Lemma users_engine_insert :
  forall vs db,
    bindable (PTuple vs) = true ->
    exists rowid,
      agrees (users_engine (insert_sql false "users" sample_record) (PTuple vs) db)
             (insert_row false "users" (keys sample_record) vs rowid db).
Proof. intros vs db _. eexists. apply agrees_refl. Defined.

Lemma fresh_state_no_open_tx fl : no_open_tx (fresh_state fl).
Proof. intros h hd Hc. discriminate Hc. Defined.

(** X1, witness: a block that inserts a row; the row reaches the file. *)
Lemma transaction_commits_on_success_witness :
  (transaction users_engine inserting_block (fresh_state [])).1
  = Return (mkCursor [] (Some 2%Z) 1)
  /\ table_size "users"
       (disk (world (transaction users_engine inserting_block (fresh_state [])).2)) = 2%Z.
Proof.
  destruct (transaction_commits_on_success users_engine inserting_block (fresh_state []) 0
              _ _ _ _ eq_refl eq_refl eq_refl) as (E & _).
  rewrite E. split; reflexivity.
Defined.

(** X2, witness: the same block when the commit meets a disk error. *)
Lemma transaction_commit_failure_rolls_back_witness :
  (transaction users_engine inserting_block
     (fresh_state [None; None; None; Some "disk I/O error"])).1
  = Raise (SqliteError "disk I/O error")
  /\ table_size "users"
       (disk (world (transaction users_engine inserting_block
                       (fresh_state [None; None; None; Some "disk I/O error"])).2)) = 1%Z.
Proof.
  destruct (transaction_commit_failure_rolls_back users_engine inserting_block
              (fresh_state [None; None; None; Some "disk I/O error"]) 0
              _ _ _ _ _ _ eq_refl eq_refl eq_refl eq_refl) as (E & _).
  rewrite E. split; reflexivity.
Defined.

(** X3, witness: a block that raises [ValueError] while the rollback meets
    a disk error. *)
Lemma transaction_rollback_failure_supersedes_witness :
  (transaction users_engine (failing_block (OtherException "ValueError" "boom"))
     (fresh_state [None; None; None; Some "disk I/O error"])).1
  = Raise (SqliteError "disk I/O error").
Proof.
  destruct (transaction_rollback_failure_supersedes users_engine
              (failing_block (OtherException "ValueError" "boom"))
              (fresh_state [None; None; None; Some "disk I/O error"]) 0
              _ _ _ _ _ eq_refl eq_refl eq_refl eq_refl) as (E & _).
  rewrite E. reflexivity.
Defined.

(** X4, witness: [connect()] on a fresh object. *)
Lemma connect_returns_open_cached_handle_witness :
  connection (connect users_engine (fresh_state [])).2 = Some 0
  /\ exists hd,
       handles (world (connect users_engine (fresh_state [])).2) !! 0 = Some hd
       /\ h_closed hd = false.
Proof.
  exact (connect_returns_open_cached_handle users_engine (fresh_state []) 0 _ eq_refl).
Defined.

(** X7, witness: [with db:] around a block that inserts without committing;
    the file still has its one row. *)
Lemma with_db_never_commits_witness :
  table_size "users"
    (disk (world (with_db users_engine (inserting_block 0) (fresh_state [])).2)) = 1%Z.
Proof.
  rewrite (with_db_never_commits users_engine (inserting_block 0) (fresh_state []) 0 _ eq_refl).
  reflexivity.
Defined.



(** X12, witness: [with db.transaction(): db.insert(...); raise ValueError]. *)
Lemma transaction_does_not_undo_insert_witness :
  (exists e',
      (transaction users_engine
         (fun _ => (insert users_engine "users" sample_record false ;;
                    raise (OtherException "ValueError" "boom"))%py : M unit)
         (fresh_state [])).1 = Raise e')
  /\ table_size "users"
       (disk (world (transaction users_engine
                       (fun _ => (insert users_engine "users" sample_record false ;;
                                  raise (OtherException "ValueError" "boom"))%py : M unit)
                       (fresh_state [])).2))
     = (table_size "users" (disk (world (fresh_state []))) + 1)%Z.
Proof.
  exact (transaction_does_not_undo_insert users_engine "users" sample_record
           users_engine_probe users_engine_insert
           (fresh_state []) 0 _ 2%Z (OtherException "ValueError" "boom")
           (fresh_state_no_open_tx []) eq_refl eq_refl).
Defined.

(** X9, witness: a second record with other keys and the same values. *)
Lemma insert_many_ignores_later_keys_witness :
  insert_many users_engine "users"
    [sample_record; [("id", VInt 3); ("name", VText "C")]] false (fresh_state [])
  = insert_many users_engine "users"
      [sample_record; [("name", VInt 3); ("id", VText "C")]] false (fresh_state []).
Proof.
  exact (insert_many_ignores_later_keys users_engine "users" sample_record
           [[("id", VInt 3); ("name", VText "C")]] [[("name", VInt 3); ("id", VText "C")]]
           false (fresh_state []) eq_refl).
Defined.


(** X14, witness: [exists] on [users], which has a row. *)
Lemma exists_iff_table_has_rows_witness :
  (exists_ users_engine "users" "" None (quiet (fresh_state []))).1 = Return true.
Proof.
  rewrite (exists_iff_table_has_rows users_engine "users"
             users_engine_probe users_engine_count (fresh_state [])).
  reflexivity.
Defined.

(** ** Further lifecycle and query properties *)

Section Lifecycle_properties.

Variable engine : Engine.

Lemma conn_close_ok h hd w w' :
  handles w !! h = Some hd ->
  conn_close h w = (DOk (), w') ->
  handles w' = <[h := mkHandle (h_path hd) (h_timeout hd) (h_check_same_thread hd)
                               (h_row_factory hd) true None]> (handles w).
Proof.
  intros Hl. unfold conn_close. rewrite Hl.
  destruct (pop_fault w) as [[m|] w1] eqn:F; apply pop_fault_frame in F as (F1 & _ & _);
    intros H; simplify_eq. cbn. rewrite F1. reflexivity.
Qed.

(** X18. [commit()] publishes exactly what the object was reading: when it
    returns on a cached handle, the database file is the database that
    handle saw (its transaction, if one was open), and a [rollback()]
    afterwards does not take it back. *)
Theorem commit_publishes_and_rollback_keeps (s : State) (h : nat) (w : World) :
  connection s = Some h ->
  conn_commit h (world s) = (DOk (), w) ->
  commit s = (Return (), add_log DEBUG "事务已提交" (set_world_of w s))
  /\ disk (world (commit s).2) = visible_db s
  /\ disk (world (rollback (commit s).2).2) = visible_db s.
Proof.
  intros Hc Hm.
  assert (commit s = (Return (), add_log DEBUG "事务已提交" (set_world_of w s))) as E.
  { rewrite (commit_run s h Hc), Hm. reflexivity. }
  assert (disk w = visible_db s) as D.
  { apply conn_commit_ok in Hm as (hd & Hl & Ho & _ & D).
    unfold visible_db. rewrite Hc, Hl, Ho. exact D. }
  split; [exact E|]. split.
  - rewrite E. exact D.
  - rewrite rollback_disk, E. exact D.
Qed.

(** X19. A closed handle is not reopened.  After a [close()] that the
    driver accepts, the next [connect()] that returns hands out a handle
    that did not exist before, and the old handle is still there, closed
    and without a transaction. *)
Theorem reconnect_after_close_opens_new_handle (s : State) (h : nat) (hd : Handle)
    (w : World) (h' : nat) (s2 : State) :
  connection s = Some h ->
  handles (world s) !! h = Some hd ->
  conn_close h (world s) = (DOk (), w) ->
  connect engine (close s).2 = (Return h', s2) ->
  h' = length (handles (world s))
  /\ h' <> h
  /\ exists hd', handles (world s2) !! h = Some hd'
                 /\ h_closed hd' = true /\ h_tx hd' = None.
Proof.
  intros Hc Hl Hd Hn. rewrite (close_run s h Hc), Hd in Hn. cbn in Hn.
  pose proof (lookup_lt_Some _ _ _ Hl) as Hlt.
  set (s0 := add_log INFO "数据库连接已关闭" (set_connection_of None (set_world_of w s))) in Hn.
  assert (needs_open engine s0 s0) as Hno by (left; split; reflexivity).
  rewrite (connect_open_run engine s0 s0 Hno) in Hn.
  destruct (open_connection s0) as [r0 s3] eqn:E.
  apply open_connection_frame in E as (_ & [((e & ->) & _)|(-> & _ & Hh)]);
    [discriminate Hn|]. injection Hn as <- <-. cbn in Hh |- *.
  pose proof (conn_close_ok h hd _ _ Hl Hd) as Hw.
  rewrite Hw in Hh |- *. rewrite length_insert.
  split; [reflexivity|]. split; [lia|].
  eexists. rewrite Hh, lookup_app_l by (rewrite length_insert; exact Hlt).
  rewrite list_lookup_insert_eq by exact Hlt. eauto.
Qed.

Lemma names_of_all_named (rows : list Row) (s : State) :
  Forall (fun row => is_Some (row_lookup "name" row)) rows ->
  names_of rows s = (Return (row_get "name" <$> rows), s).
Proof.
  induction 1 as [|row rest [v Hv] _ IH]; [reflexivity|].
  cbn. rewrite Hv. unfold bind. rewrite IH. unfold row_get. rewrite Hv. reflexivity.
Qed.


Section Count_assumptions.

Variable t : string.
Hypothesis engine_probe :
  forall db, exists c, engine "SELECT 1" (PTuple []) db = inr (db, c).
Hypothesis engine_count :
  forall db, engine (count_sql t None) (PTuple []) db = count_rows t db.


End Count_assumptions.

End Lifecycle_properties.

(** X18, witness: a handle with one pending row, committed. *)
Lemma commit_publishes_and_rollback_keeps_witness :
  table_size "users"
    (disk (world (commit (inserting_block 0 (connect users_engine (fresh_state [])).2).2).2))
  = 2%Z
  /\ table_size "users"
       (disk (world (rollback
                       (commit (inserting_block 0
                                  (connect users_engine (fresh_state [])).2).2).2).2))
     = 2%Z.
Proof.
  destruct (commit_publishes_and_rollback_keeps
              (inserting_block 0 (connect users_engine (fresh_state [])).2).2 0 _
              eq_refl eq_refl) as (_ & D1 & D2).
  rewrite D1, D2. split; reflexivity.
Defined.

(** X19, witness: [close()] then [connect()] on a connected object. *)
Lemma reconnect_after_close_opens_new_handle_witness :
  1 = length (handles (world (connected_state [])))
  /\ 1 <> 0
  /\ exists hd',
       handles (world (connect users_engine (close (connected_state [])).2).2) !! 0
       = Some hd'
       /\ h_closed hd' = true /\ h_tx hd' = None.
Proof.
  exact (reconnect_after_close_opens_new_handle users_engine (connected_state []) 0
           _ _ 1 _ eq_refl eq_refl eq_refl eq_refl).
Defined.


(** X20, at an engine that answers two table rows. *)
Example get_tables_two_tables :
  (get_tables (constant_engine [[("name", VText "users")]; [("name", VText "orders")]])
              (fresh_state [])).1
  = Return [VText "users"; VText "orders"]
  /\ (get_tables users_engine (fresh_state [Some "unable to open database file"])).1
     = Return [].
Proof. split; vm_compute; reflexivity. Qed.

(** X11 and X12, evaluated: the failed commit leaves the row visible; the
    failed block leaves the inserted row in the file. *)
Example insert_inside_failed_transaction :
  (transaction users_engine
     (fun _ => (insert users_engine "users" sample_record false ;;
                raise (OtherException "ValueError" "boom"))%py : M unit)
     (fresh_state [])).1 = Raise (OtherException "ValueError" "boom")
  /\ count_seen users_engine "users"
       (transaction users_engine
          (fun _ => (insert users_engine "users" sample_record false ;;
                     raise (OtherException "ValueError" "boom"))%py : M unit)
          (fresh_state [])).2 = Return (VInt 2).
Proof. split; vm_compute; reflexivity. Qed.
